(** * entr: event notify test runner

    A shallow embedding of the two C sources of the repository:

    - [missing/kqueue_inotify.c], the shim that emulates kqueue(2) on top of
      inotify (module [Shim]);
    - [entr.c], the watch manager and the dispatch loop (module [Entr]).

    System calls are the environment: their results are supplied by oracles
    and the calls a function makes are recorded in a trace, in the order of
    the C statements. *)

From Stdlib Require Import Strings.Ascii.
From stdpp Require Import base numbers list strings.

Local Open Scope Z_scope.

(** ** <sys/event.h> *)

Module Event.

(** Filters, actions and vnode notes, with the values of BSD's
    <sys/event.h>, which the shim's header reproduces. *)
Definition EVFILT_READ : Z := -1.
Definition EVFILT_VNODE : Z := -4.

Definition EV_ADD : Z := 1.
Definition EV_DELETE : Z := 2.
Definition EV_CLEAR : Z := 32.

Definition NOTE_DELETE : Z := 1.
Definition NOTE_WRITE : Z := 2.
Definition NOTE_EXTEND : Z := 4.
Definition NOTE_ATTRIB : Z := 8.
Definition NOTE_RENAME : Z := 32.

(** [struct kevent].  [udata] is a pointer to a watched-file record; the
    records live in the registry, so a pointer is the index of its record
    and [None] is NULL.  [ident] holds an [int] descriptor converted to
    [uintptr_t]; the conversion is injective, so the model keeps the
    [int]. *)
Record struct_kevent := EV_SET {
  ident : Z;
  filter : Z;
  flags : Z;
  fflags : Z;
  data : Z;
  udata : option nat
}.

(** C truth value of [x & bit]. *)
Definition has (x bit : Z) : bool := negb (Z.land x bit =? 0).

End Event.

(** ** <sys/inotify.h> *)

Module Inotify.

Definition IN_MODIFY : Z := 2.
Definition IN_ATTRIB : Z := 4.
Definition IN_CLOSE_WRITE : Z := 8.
Definition IN_CREATE : Z := 256.
Definition IN_DELETE_SELF : Z := 1024.
Definition IN_MOVE_SELF : Z := 2048.

(** [struct inotify_event]; [len] is the length of the name that follows
    the fixed part of the record in the read buffer. *)
Record inotify_event := {
  wd : Z;
  mask : Z;
  len : Z
}.

End Inotify.

Definition EINTR : Z := 4.
Definition STDIN_FILENO : Z := 0.

(** ** missing/kqueue_inotify.c *)

Module Shim.
Import Event Inotify.

(** [WatchFile] of data.h, with the two fields the shim reads and
    writes. *)
Record WatchFile := {
  fn : string;
  fd : Z
}.

(** [file_by_descriptor]: the global [files] is a NULL-terminated array of
    pointers, here the list of the records before the NULL; the result is
    the pointer found, as an index. *)
Fixpoint file_by_descriptor_from (i : nat) (files : list WatchFile) (w : Z)
  : option nat :=
  match files with
  | [] => None
  | f :: rest =>
      if fd f =? w then Some i else file_by_descriptor_from (S i) rest w
  end.

Definition file_by_descriptor (files : list WatchFile) (w : Z) : option nat :=
  file_by_descriptor_from 0 files w.

Definition IN_ALL : Z :=
  Z.lor IN_CLOSE_WRITE
    (Z.lor IN_DELETE_SELF
       (Z.lor IN_MODIFY (Z.lor IN_MOVE_SELF (Z.lor IN_ATTRIB IN_CREATE)))).

(** *** The registration path ([nchanges > 0]) *)

Inductive call :=
| inotify_rm_watch (w : Z)
| inotify_add_watch (path : string) (m : Z)
| close (d : Z).

(** The registry, the number of [inotify_add_watch] calls made so far and
    the calls made, oldest first. *)
Record registry := {
  files : list WatchFile;
  adds : nat;
  calls : list call
}.

Inductive change_result :=
| Returned (rv : Z) (r : registry)
| Fault.  (* a NULL or out-of-bounds dereference *)

Section Changes.
(** The return value of the k-th [inotify_add_watch]. *)
Variable add_watch_ret : nat -> Z.
(** [sizeof(struct kevent)]: the header that declares the struct is not
    part of the sources. *)
Variable sizeof_kevent : nat.

(** The loop [for (n=0; n<nchanges; n++)], with [k] iterations left.
    [changelist + (sizeof(struct kevent)*n)] is pointer arithmetic on a
    [struct kevent *]: it addresses element [sizeof_kevent * n]. *)
Fixpoint changes_loop (changelist : list struct_kevent) (nchanges : Z)
    (k n : nat) (ignored : Z) (r : registry) : change_result :=
  match k with
  | O => Returned (nchanges - ignored) r
  | S k' =>
      match changelist !! (sizeof_kevent * n)%nat with
      | None => Fault
      | Some kev =>
          let file := udata kev in
          if negb (filter kev =? EVFILT_VNODE) then
            changes_loop changelist nchanges k' (S n) ignored r
          else if has (flags kev) EV_DELETE then
            match file with
            | None => Fault
            | Some p =>
                match files r !! p with
                | None => Fault
                | Some f =>
                    changes_loop changelist nchanges k' (S n) ignored
                      {| files := <[p := {| fn := fn f; fd := -1 |}]> (files r);
                         adds := adds r;
                         calls := calls r ++ [inotify_rm_watch (ident kev)] |}
                end
            end
          else if has (flags kev) EV_ADD then
            match file with
            | None => Fault
            | Some p =>
                match files r !! p with
                | None => Fault
                | Some f =>
                    let w := add_watch_ret (adds r) in
                    if w <? 0 then
                      Returned (-1)
                        {| files := files r;
                           adds := S (adds r);
                           calls := calls r ++ [inotify_add_watch (fn f) IN_ALL] |}
                    else
                      changes_loop changelist nchanges k' (S n) ignored
                        {| files := <[p := {| fn := fn f; fd := w |}]> (files r);
                           adds := S (adds r);
                           calls := calls r ++
                             [inotify_add_watch (fn f) IN_ALL; close (fd f)] |}
                end
            end
          else
            changes_loop changelist nchanges k' (S n) (ignored + 1) r
      end
  end.

Definition kevent_changes (changelist : list struct_kevent) (nchanges : Z)
    (r : registry) : change_result :=
  changes_loop changelist nchanges (Z.to_nat nchanges) 0 0 r.

(** A history of registry operations: successive calls
    [kevent(kq, &kev, 1, NULL, 0, NULL)], one change each, as
    [watch_file] issues them.  A call that returns -1 leaves the
    registry as it was. *)
Fixpoint run_changes (history : list struct_kevent) (r : registry)
  : option registry :=
  match history with
  | [] => Some r
  | kev :: rest =>
      match kevent_changes [kev] 1 r with
      | Returned _ r' => run_changes rest r'
      | Fault => None
      end
  end.
End Changes.

(** *** The wait path ([nchanges <= 0]) *)

Inductive read_ret :=
| read_fails (errno : Z)                 (* len < 0 *)
| read_gets (records : list inotify_event). (* the records in buf[0..len) *)

(** What one [poll] that returned a positive count left in [revents], and
    what [read] on the inotify descriptor returns if it is then called. *)
Record round := {
  in_ready : bool;    (* pfd[0].revents & POLLIN *)
  stdin_ready : bool; (* pfd[1].revents & POLLIN *)
  rd : read_ret
}.

(** [revents] as [calloc] leaves them. *)
Definition idle : round :=
  {| in_ready := false; stdin_ready := false; rd := read_gets [] |}.

Inductive poll_ret :=
| poll_timeout          (* 0 *)
| poll_error            (* -1, revents untouched *)
| poll_ready (r : round).

(** [n], the caller's [eventlist] as the memory it points to (a cell per
    index; cells from [nevents] on lie behind the caller's buffer), the
    number of [read] calls and the [perror] messages. *)
Record wait_state := {
  n : Z;
  eventlist : Z -> struct_kevent;
  reads : nat;
  diag : list string
}.

Definition store (m : Z -> struct_kevent) (i : Z) (e : struct_kevent)
  : Z -> struct_kevent :=
  fun j => if j =? i then e else m j.

(** "convert iev->mask; to comparable kqueue flags" *)
Definition translate (m : Z) : Z :=
  let fflags := 0 in
  let fflags := if has m IN_DELETE_SELF then Z.lor fflags NOTE_DELETE else fflags in
  let fflags := if has m IN_CLOSE_WRITE then Z.lor fflags NOTE_WRITE else fflags in
  let fflags := if has m IN_CREATE then Z.lor fflags NOTE_WRITE else fflags in
  let fflags := if has m IN_MOVE_SELF then Z.lor fflags NOTE_RENAME else fflags in
  let fflags := if has m IN_ATTRIB then Z.lor fflags NOTE_ATTRIB else fflags in
  fflags.

(** The body of [while ((pos < len) && (n < nevents))] for one record. *)
Definition record_step (files : list WatchFile) (iev : inotify_event)
    (s : wait_state) : wait_state :=
  let fflags := translate (mask iev) in
  if fflags =? 0 then s
  else
    (* merge events if we're not acting on a new file descriptor *)
    let merge := (0 <? n s) && (ident (eventlist s (n s - 1)) =? wd iev) in
    let n1 := if merge then n s - 1 else n s in
    let fflags := if merge then Z.lor fflags (Event.fflags (eventlist s n1)) else fflags in
    let found := file_by_descriptor files (wd iev) in
    let ev := {| ident := wd iev; filter := EVFILT_VNODE; flags := 0;
                 fflags := fflags; data := 0; udata := found |} in
    {| n := match found with Some _ => n1 + 1 | None => n1 end;
       eventlist := store (eventlist s) n1 ev;
       reads := reads s;
       diag := diag s |}.

(** [while ((pos < len) && (n < nevents))]: [pos] walks the records of
    the buffer; the records left when [n] reaches [nevents] are dropped. *)
Fixpoint read_records (files : list WatchFile) (nevents : Z)
    (records : list inotify_event) (s : wait_state) : wait_state :=
  match records with
  | [] => s
  | iev :: rest =>
      if n s <? nevents then
        read_records files nevents rest (record_step files iev s)
      else s
  end.

Definition count_read (s : wait_state) : wait_state :=
  {| n := n s; eventlist := eventlist s; reads := S (reads s); diag := diag s |}.

Definition perror (msg : string) (s : wait_state) : wait_state :=
  {| n := n s; eventlist := eventlist s; reads := reads s;
     diag := diag s ++ [msg] |}.

Definition stdin_event : struct_kevent :=
  {| ident := STDIN_FILENO; filter := EVFILT_READ; flags := 0; fflags := 0;
     data := 0; udata := None |}.

(** [if ((pfd[1].revents & POLLIN)) { ...; n++; break; }] *)
Definition emit_stdin (s : wait_state) : wait_state :=
  {| n := n s + 1;
     eventlist := store (eventlist s) (n s) stdin_event;
     reads := reads s;
     diag := diag s |}.

Inductive flow := Break | Next.

(** [if ((pfd[0].revents & POLLIN)) { ... }], when it is not left by
    [continue]: the state before the test of [pfd[1]]. *)
Definition inotify_part (files : list WatchFile) (nevents : Z) (r : round)
    (s : wait_state) : wait_state :=
  if in_ready r then
    match rd r with
    | read_fails _ => perror "read" (count_read s)
    | read_gets records => read_records files nevents records (count_read s)
    end
  else s.

(** SA_RESTART doesn't work for inotify fds: the read that [continue]
    leaves. *)
Definition interrupted (r : round) : bool :=
  in_ready r &&
  match rd r with read_fails e => e =? EINTR | read_gets _ => false end.

(** One pass through the body of the [do ... while]. *)
Definition body (files : list WatchFile) (nevents : Z) (r : round)
    (s : wait_state) : wait_state * flow :=
  if interrupted r then (count_read s, Next)
  else
    let s1 := inotify_part files nevents r s in
    if stdin_ready r then (emit_stdin s1, Break) else (s1, Next).

(** [do { ... } while ((poll(pfd, 2, 50) > 0))]: [r] is what the last poll
    reported, [later] what the polls to come report as long as they return
    a positive count; the poll after them returns 0 or -1. *)
Fixpoint do_while (files : list WatchFile) (nevents : Z)
    (later : list round) (r : round) (s : wait_state) : wait_state :=
  match body files nevents r s with
  | (s', Break) => s'
  | (s', Next) =>
      match later with
      | [] => s'
      | r' :: later' => do_while files nevents later' r' s'
      end
  end.

Definition start (eventlist : Z -> struct_kevent) : wait_state :=
  {| n := 0; eventlist := eventlist; reads := 0; diag := [] |}.

(** The wait path of [kevent]: [timeout] is [Some tv_nsec] or NULL,
    [first] the result of [poll(pfd, 2, timeout->tv_nsec/1000000)], which
    is called only when [timeout] is not NULL.  The result holds the
    returned count in [n]. *)
Definition kevent_wait (files : list WatchFile)
    (eventlist : Z -> struct_kevent) (nevents : Z) (timeout : option Z)
    (first : poll_ret) (later : list round) : wait_state :=
  match timeout, first with
  | Some _, poll_timeout => start eventlist
  | Some _, poll_ready r => do_while files nevents later r (start eventlist)
  | Some _, poll_error => do_while files nevents later idle (start eventlist)
  | None, _ => do_while files nevents later idle (start eventlist)
  end.

(** The events a call returns: cells [0 .. n-1]. *)
Definition batch (s : wait_state) : list struct_kevent :=
  map (fun i => eventlist s (Z.of_nat i)) (seq 0 (Z.to_nat (n s))).

Inductive kevent_result :=
| changed (c : change_result)
| waited (s : wait_state).

(** [kevent] *)
Definition kevent (add_watch_ret : nat -> Z) (sizeof_kevent : nat)
    (r : registry) (changelist : list struct_kevent) (nchanges : Z)
    (eventlist : Z -> struct_kevent) (nevents : Z) (timeout : option Z)
    (first : poll_ret) (later : list round) : kevent_result :=
  if 0 <? nchanges then
    changed (kevent_changes add_watch_ret sizeof_kevent changelist nchanges r)
  else
    waited (kevent_wait (files r) eventlist nevents timeout first later).

(** *** What the wait path maintains *)

(** An event made from an inotify record: a vnode event with some flag set,
    tagged with the record that the lookup of its identifier finds. *)
Definition produced (files : list WatchFile) (e : struct_kevent) : Prop :=
  filter e = EVFILT_VNODE /\ fflags e <> 0 /\
  exists k, udata e = Some k /\ file_by_descriptor files (ident e) = Some k.

(** While records are collected, the cells below [n] are such events. *)
Definition collecting (files : list WatchFile) (s : wait_state) : Prop :=
  0 <= n s /\ forall i, 0 <= i < n s -> produced files (eventlist s i).

(** At the return, the last cell may instead be the stdin event. *)
Definition returned (files : list WatchFile) (s : wait_state) : Prop :=
  0 <= n s /\
  forall i, 0 <= i < n s ->
    produced files (eventlist s i) \/
    (i = n s - 1 /\ eventlist s i = stdin_event).

(** No poll of the call reports stdin readable. *)
Definition stdin_silent (first : poll_ret) (later : list round) : Prop :=
  match first with
  | poll_ready r => stdin_ready r = false
  | _ => True
  end /\
  Forall (fun r => stdin_ready r = false) later.



End Shim.

(** ** entr.c *)

Module Entr.
Import Event.

Record watch_file_t := {
  fn : string;
  fd : Z
}.

Record timespec := {
  tv_sec : Z;
  tv_nsec : Z
}.

(** A pointer to a [watch_file_t]: the index of the record among the
    allocated ones, or NULL. *)
Definition ptr := option nat.

(** *** The environment *)

(** The value a system call returns and the [errno] it sets when that
    value is -1. *)
Record sysret := {
  rv : Z;
  en : Z
}.

(** kqueue's [kevent]: -1 with an [errno], or the pending events, of which
    it hands over as many as the caller's buffer takes. *)
Inductive kevent_ret :=
| kevent_fails (errno : Z)
| kevent_gets (events : list struct_kevent).

(** The result of the k-th call of each system call. *)
Record env := {
  open_ret : nat -> sysret;
  close_ret : nat -> sysret;
  kevent_ret_of : nat -> kevent_ret
}.

Inductive action :=
| a_open (path : string)                 (* open(path, O_RDONLY) *)
| a_usleep (usec : Z)
| a_close (d : Z)
| a_kevent (changelist : list struct_kevent) (nevents : Z)
    (timeout : option timespec)
| a_run_script (filename : option string) (args : list string)
| a_write (d : Z) (bytes : string)
| a_fsync (d : Z).

(** *** The process *)

Record proc := {
  files : list watch_file_t;   (* the allocated records *)
  errno : Z;
  evList : list struct_kevent; (* struct kevent evList[32] of watch_loop *)
  n_open : nat;
  n_close : nat;
  n_kevent : nat;
  trace : list action          (* oldest first *)
}.

(** The globals and arguments the loop only reads. *)
Record config := {
  fifo : watch_file_t;
  argv : list string
}.

Inductive outcome (A : Type) :=
| Ret (a : A) (p : proc)
| Exit (eval : Z) (msg : string) (p : proc)  (* err(eval, msg), exit(eval) *)
| Segv (p : proc).                           (* a NULL or wild dereference *)
Arguments Ret {A} a p.
Arguments Exit {A} eval msg p.
Arguments Segv {A} p.

Definition M (A : Type) : Type := proc -> outcome A.

Definition ret {A} (a : A) : M A := fun p => Ret a p.

Definition bind {A B} (c : M A) (k : A -> M B) : M B :=
  fun p =>
    match c p with
    | Ret a p' => k a p'
    | Exit eval msg p' => Exit eval msg p'
    | Segv p' => Segv p'
    end.

Notation "x <- c ;; k" := (bind c (fun x => k))
  (at level 100, c at next level, right associativity).
Notation "c ;; k" := (bind c (fun _ => k))
  (at level 100, right associativity).

Definition err {A} (eval : Z) (msg : string) : M A :=
  fun p => Exit eval msg p.

Definition get_errno : M Z := fun p => Ret (errno p) p.

Definition log (a : action) (p : proc) : proc :=
  {| files := files p; errno := errno p; evList := evList p;
     n_open := n_open p; n_close := n_close p; n_kevent := n_kevent p;
     trace := trace p ++ [a] |}.

Definition set_errno (r : sysret) (p : proc) : proc :=
  {| files := files p;
     errno := if rv r =? -1 then en r else errno p;
     evList := evList p;
     n_open := n_open p; n_close := n_close p; n_kevent := n_kevent p;
     trace := trace p |}.

(** [file->fn] and [file->fd] *)
Definition load (file : ptr) : M watch_file_t :=
  fun p =>
    match file with
    | None => Segv p
    | Some i =>
        match files p !! i with
        | None => Segv p
        | Some f => Ret f p
        end
    end.

(** [file->fd = d] *)
Definition store_fd (file : ptr) (d : Z) : M unit :=
  fun p =>
    match file with
    | None => Segv p
    | Some i =>
        match files p !! i with
        | None => Segv p
        | Some f =>
            Ret tt
              {| files := <[i := {| fn := fn f; fd := d |}]> (files p);
                 errno := errno p; evList := evList p;
                 n_open := n_open p; n_close := n_close p;
                 n_kevent := n_kevent p; trace := trace p |}
        end
    end.

Definition NUL : ascii := "000"%char.

(** The array a C string occupies: its characters and the
    terminator. *)
Definition c_str (s : string) : string := s +:+ String NUL EmptyString.

Definition strlen (s : string) : nat := String.length s.

(** The characters of the literal ["\n"]. *)
Definition newline : string := String "010"%char EmptyString.

Section Program.
Variable E : env.
Variable C : config.

Definition sys_open (path : string) : M Z :=
  fun p =>
    let r := open_ret E (n_open p) in
    let p := log (a_open path) (set_errno r p) in
    Ret (rv r)
      {| files := files p; errno := errno p; evList := evList p;
         n_open := S (n_open p); n_close := n_close p;
         n_kevent := n_kevent p; trace := trace p |}.

Definition sys_close (d : Z) : M Z :=
  fun p =>
    let r := close_ret E (n_close p) in
    let p := log (a_close d) (set_errno r p) in
    Ret (rv r)
      {| files := files p; errno := errno p; evList := evList p;
         n_open := n_open p; n_close := S (n_close p);
         n_kevent := n_kevent p; trace := trace p |}.

(** [usleep] leaves [errno] alone when it succeeds. *)
Definition usleep (usec : Z) : M unit :=
  fun p => Ret tt (log (a_usleep usec) p).

(** [kevent(kq, changelist, nchanges, evList or NULL, nevents, timeout)]
    of kqueue(2): the events handed over replace the first cells of
    [evList], the cells behind them keep what they held. *)
Definition sys_kevent (changelist : list struct_kevent) (nevents : nat)
    (timeout : option timespec) : M Z :=
  fun p =>
    let p1 := log (a_kevent changelist (Z.of_nat nevents) timeout) p in
    match kevent_ret_of E (n_kevent p) with
    | kevent_fails e =>
        Ret (-1)
          {| files := files p1; errno := e; evList := evList p1;
             n_open := n_open p1; n_close := n_close p1;
             n_kevent := S (n_kevent p1); trace := trace p1 |}
    | kevent_gets events =>
        let got := take nevents events in
        Ret (Z.of_nat (length got))
          {| files := files p1; errno := errno p1;
             evList := got ++ drop (length got) (evList p1);
             n_open := n_open p1; n_close := n_close p1;
             n_kevent := S (n_kevent p1); trace := trace p1 |}
    end.

(** [run_script] is a pointer to the function that runs the command. *)
Definition run_script (filename : option string) (args : list string)
  : M unit :=
  fun p => Ret tt (log (a_run_script filename args) p).

(** [write(d, buf, count)]: the first [count] bytes of the array. *)
Definition sys_write (d : Z) (buf : string) (count : nat) : M unit :=
  fun p => Ret tt (log (a_write d (String.substring 0 count buf)) p).

Definition sys_fsync (d : Z) : M unit :=
  fun p => Ret tt (log (a_fsync d) p).

(** [strcmp(strerror(errno), "Success") != 0]: glibc's message for 0 and
    for no other number. *)
Definition not_Success (e : Z) : bool := negb (e =? 0).

(** [for (i=0; i < 20; i++)] of [watch_file], with [k] iterations
    left. *)
Fixpoint open_loop (k : nat) (file : ptr) : M unit :=
  match k with
  | O => ret tt
  | S k' =>
      f <- load file ;;
      d <- sys_open (fn f) ;;
      store_fd file d ;;
      f <- load file ;;
      if fd f =? -1 then usleep 100000 ;; open_loop k' file
      else ret tt
  end.

Definition watch_file (file : ptr) : M unit :=
  open_loop 20 file ;;
  f <- load file ;;
  (if fd f =? -1 then
     e <- get_errno ;;
     err e ("cannot open `" +:+ fn f +:+ "'")
   else ret tt) ;;
  f <- load file ;;
  let evSet :=
    EV_SET (fd f) EVFILT_VNODE (Z.lor EV_ADD EV_CLEAR)
      (Z.lor NOTE_DELETE (Z.lor NOTE_WRITE NOTE_EXTEND)) 0 file in
  r <- sys_kevent [evSet] 0 None ;;
  if r =? -1 then
    e <- get_errno ;;
    if not_Success e then err 1 "failed to register VNODE event list"
    else ret tt
  else ret tt.

Definition t : timespec := {| tv_sec := 0; tv_nsec := 100 |}.

(** [evList[i]] *)
Definition event_at (i : nat) : M struct_kevent :=
  fun p =>
    match evList p !! i with
    | None => Segv p
    | Some ev => Ret ev p
    end.

(** The delivery: what the loop does for an event with one of
    NOTE_DELETE, NOTE_WRITE, NOTE_EXTEND. *)
Definition deliver (file : ptr) : M unit :=
  if fd (fifo C) =? 0 then
    run_script (argv C !! 1%nat) (drop 1 (argv C)) ;;
    (* clear all events *)
    sys_kevent [] 32 (Some t) ;;
    ret tt
  else
    f <- load file ;;
    sys_write (fd (fifo C)) (c_str (fn f)) (strlen (fn f)) ;;
    sys_write (fd (fifo C)) (c_str newline) 2 ;;
    sys_fsync (fd (fifo C)).

(** The body of [for (i=0; i<nev; i++)].  Nothing between the two tests
    of [evList[i].fflags] writes [evList], so the event is read once. *)
Definition dispatch (i : nat) : M unit :=
  ev <- event_at i ;;
  let file := udata ev in
  (if has (fflags ev) NOTE_DELETE then
     (* close will clear the kqueue event as well *)
     f <- load file ;;
     r <- sys_close (fd f) ;;
     (if r =? -1 then
        e <- get_errno ;;
        err e "unable to close file"
      else ret tt) ;;
     watch_file file
   else ret tt) ;;
  if has (fflags ev) NOTE_DELETE || has (fflags ev) NOTE_WRITE
     || has (fflags ev) NOTE_EXTEND
  then deliver file
  else ret tt.

(** [for (i=...; i<nev; i++)] with [k] iterations left. *)
Fixpoint for_events (k i : nat) : M unit :=
  match k with
  | O => ret tt
  | S k' => dispatch i ;; for_events k' (S i)
  end.

(** The body of [do { ... } while(!once)]. *)
Definition pass : M unit :=
  nev <- sys_kevent [] 32 None ;;
  (if nev =? -1 then err 1 "kevent error" else ret tt) ;;
  for_events (Z.to_nat nev) 0.

(** [watch_loop]: with [once] one pass; without, the loop does not end,
    and the result is the process after its first [passes] passes. *)
Fixpoint watch_loop (passes : nat) (once : bool) : M unit :=
  match passes with
  | O => ret tt
  | S k => pass ;; if once then ret tt else watch_loop k once
  end.

End Program.

(** What the trace shows. *)
Definition is_run_script (a : action) : bool :=
  match a with a_run_script _ _ => true | _ => false end.

Definition invocations (tr : list action) : nat :=
  length (List.filter is_run_script tr).

(** The bytes written to descriptor [d], in order. *)
Fixpoint written (d : Z) (tr : list action) : string :=
  match tr with
  | [] => EmptyString
  | a_write d' bytes :: rest =>
      if d' =? d then bytes +:+ written d rest else written d rest
  | _ :: rest => written d rest
  end.

Definition is_registration (a : action) : bool :=
  match a with
  | a_kevent (_ :: _) _ _ => true
  | _ => false
  end.

Definition registrations (tr : list action) : nat :=
  length (List.filter is_registration tr).

(** The trace of [k] attempts to open [path] that fail. *)
Definition failed_attempts (k : nat) (path : string) : list action :=
  concat (replicate k [a_open path; a_usleep 100000]).

(** The registration request of [watch_file] for a file opened as [d]. *)
Definition evSet_of (d : Z) (file : ptr) : struct_kevent :=
  EV_SET d EVFILT_VNODE (Z.lor EV_ADD EV_CLEAR)
    (Z.lor NOTE_DELETE (Z.lor NOTE_WRITE NOTE_EXTEND)) 0 file.

(** What a run of [watch_file] on record [i] leaves alone. *)
Definition untouched (i : nat) (p p' : proc) : Prop :=
  (forall q, q <> i -> files p' !! q = files p !! q) /\
  evList p' = evList p /\ n_close p' = n_close p.

(** The registration of [watch_file] goes through: [kevent] does not return
    -1, or [errno] reads "Success". *)
Definition accepted (r : kevent_ret) : bool :=
  match r with
  | kevent_gets _ => true
  | kevent_fails e => e =? 0
  end.

(** The process an outcome leaves. *)
Definition state_of {A} (o : outcome A) : proc :=
  match o with
  | Ret _ p => p
  | Exit _ _ p => p
  | Segv p => p
  end.

Definition is_fsync (a : action) : bool :=
  match a with a_fsync _ => true | _ => false end.

Definition flushes (tr : list action) : nat :=
  length (List.filter is_fsync tr).

End Entr.

(** * Sample inputs *)

Module Sample.
Import Event Inotify.

(** Two registered files and an event buffer that holds nothing yet. *)
Definition registered : list Shim.WatchFile :=
  [ {| Shim.fn := "a.txt"; Shim.fd := 1 |};
    {| Shim.fn := "b.txt"; Shim.fd := 2 |} ].

Definition blank : Z -> struct_kevent := fun _ => EV_SET 0 0 0 0 0 None.

Definition close_write_a : inotify_event :=
  {| wd := 1; mask := IN_CLOSE_WRITE; len := 0 |}.

Definition attrib_a : inotify_event :=
  {| wd := 1; mask := IN_ATTRIB; len := 0 |}.

Definition modify_b : inotify_event :=
  {| wd := 2; mask := IN_MODIFY; len := 0 |}.

(** A record for a watch descriptor that no file is registered under. *)
Definition unknown_deleted : inotify_event :=
  {| wd := 7; mask := IN_DELETE_SELF; len := 0 |}.

Definition inotify_readable (records : list inotify_event) : Shim.round :=
  {| Shim.in_ready := true; Shim.stdin_ready := false;
     Shim.rd := Shim.read_gets records |}.

Definition both_readable (records : list inotify_event) : Shim.round :=
  {| Shim.in_ready := true; Shim.stdin_ready := true;
     Shim.rd := Shim.read_gets records |}.


(** Three watched files, the events kqueue reports for them, a kernel that
    has one batch pending and nothing after it, and the two modes. *)
Definition watched : list Entr.watch_file_t :=
  [ {| Entr.fn := "a.txt"; Entr.fd := 5 |};
    {| Entr.fn := "b.txt"; Entr.fd := 6 |};
    {| Entr.fn := "c.txt"; Entr.fd := 7 |} ].

Definition written_to (i : nat) (d : Z) : struct_kevent :=
  EV_SET d EVFILT_VNODE 0 NOTE_WRITE 0 (Some i).

Definition deleted (i : nat) (d : Z) : struct_kevent :=
  EV_SET d EVFILT_VNODE 0 NOTE_DELETE 0 (Some i).

Definition ok : Entr.sysret := {| Entr.rv := 0; Entr.en := 0 |}.

Definition ENOENT : Z := 2.

Definition no_such_file : Entr.sysret := {| Entr.rv := -1; Entr.en := ENOENT |}.

(** [open] returns [d] at every call. *)
Definition kernel (pending : list struct_kevent) (d : Z) : Entr.env :=
  {| Entr.open_ret := fun _ => {| Entr.rv := d; Entr.en := 0 |};
     Entr.close_ret := fun _ => ok;
     Entr.kevent_ret_of := fun k =>
       match k with
       | O => Entr.kevent_gets pending
       | S _ => Entr.kevent_gets []
       end |}.

(** The file is missing at the first [open] and back at the second. *)
Definition kernel_after_rename (pending : list struct_kevent) (d : Z) : Entr.env :=
  {| Entr.open_ret := fun k =>
       match k with
       | O => no_such_file
       | S _ => {| Entr.rv := d; Entr.en := 0 |}
       end;
     Entr.close_ret := fun _ => ok;
     Entr.kevent_ret_of := fun k =>
       match k with
       | O => Entr.kevent_gets pending
       | S _ => Entr.kevent_gets []
       end |}.

(** The file never comes back. *)
Definition kernel_without_file : Entr.env :=
  {| Entr.open_ret := fun _ => no_such_file;
     Entr.close_ret := fun _ => ok;
     Entr.kevent_ret_of := fun _ => Entr.kevent_gets [] |}.

Definition boot (fs : list Entr.watch_file_t) : Entr.proc :=
  {| Entr.files := fs; Entr.errno := 0;
     Entr.evList := replicate 32 (EV_SET 0 0 0 0 0 None);
     Entr.n_open := 0; Entr.n_close := 0; Entr.n_kevent := 0;
     Entr.trace := [] |}.

Definition command_mode : Entr.config :=
  {| Entr.fifo := {| Entr.fn := ""; Entr.fd := 0 |};
     Entr.argv := ["entr"; "make"; "test"] |}.

Definition fifo_mode : Entr.config :=
  {| Entr.fifo := {| Entr.fn := "notify"; Entr.fd := 3 |};
     Entr.argv := ["entr"; "+notify"] |}.

End Sample.

(** * More of the shim: what the proofs below speak of *)

Module ShimExtra.
Import Event Inotify Shim.

(** The event the loop builds for a record that is not merged. *)
Definition event_of (files : list WatchFile) (iev : inotify_event)
  : struct_kevent :=
  {| ident := wd iev; filter := EVFILT_VNODE; flags := 0;
     fflags := translate (mask iev); data := 0;
     udata := file_by_descriptor files (wd iev) |}.

(** No record is for the watch descriptor of the record before it. *)
Fixpoint distinct_neighbours (records : list inotify_event) : Prop :=
  match records with
  | a :: rest =>
      match rest with
      | b :: _ => wd a <> wd b
      | [] => True
      end /\ distinct_neighbours rest
  | [] => True
  end.

(** The record has a flag to report and a file registered under its watch
    descriptor. *)
Definition reportable_record (files : list WatchFile) (iev : inotify_event)
  : Prop :=
  translate (mask iev) <> 0 /\ file_by_descriptor files (wd iev) <> None.

(** The notes the translation can set. *)
Definition reportable : Z :=
  Z.lor NOTE_DELETE (Z.lor NOTE_WRITE (Z.lor NOTE_RENAME NOTE_ATTRIB)).

(** While records are collected, [n] stays within the caller's buffer of
    [nevents] cells and no cell outside the buffer has been written. *)
Definition in_buffer (evs : Z -> struct_kevent) (nevents : Z)
    (s : wait_state) : Prop :=
  0 <= n s <= Z.max 0 nevents /\
  forall j, j < 0 \/ nevents <= j -> eventlist s j = evs j.

(** At the return the stdin event may have taken the count one further and
    the cell behind the buffer with it. *)
Definition at_most_one_behind (evs : Z -> struct_kevent) (nevents : Z)
    (s : wait_state) : Prop :=
  0 <= n s <= Z.max 0 nevents + 1 /\
  forall j, j < 0 \/ Z.max 0 nevents < j -> eventlist s j = evs j.

(** A sample record: the second sample file is deleted. *)
Definition delete_b : inotify_event :=
  {| wd := 2; mask := IN_DELETE_SELF; len := 0 |}.

(** Thirty-two registered files, under the watch descriptors 1 to 32, and
    what one read returns when each of them has been written and closed and
    the attributes of the last have changed after that: 33 records of 16
    bytes, which the buffer of [EVENT_BUF_LEN] bytes holds. *)
Definition registered32 : list WatchFile :=
  map (fun i => {| fn := "watched"; fd := Z.of_nat (S i) |}) (seq 0 32).

Definition close_write_each : list inotify_event :=
  map (fun i => {| wd := Z.of_nat (S i); mask := IN_CLOSE_WRITE; len := 0 |})
    (seq 0 32).

Definition attrib_last : inotify_event :=
  {| wd := 32; mask := IN_ATTRIB; len := 0 |}.

End ShimExtra.

(** * More of entr.c: the start of the program *)

Module Startup.
Import Event Entr.

Definition LF : ascii := "010"%char.

(** An array of [char] is the list of its bytes; reading a byte behind the
    end of the list stands for a read behind the array. *)
Definition byte_at (i : nat) (bytes : list ascii) : ascii := nth i bytes NUL.

(** The C string an array holds: the bytes before the first NUL. *)
Fixpoint c_string (bytes : list ascii) : list ascii :=
  match bytes with
  | [] => []
  | c :: rest => if Ascii.eqb c NUL then [] else c :: c_string rest
  end.

(** [memccpy(to, from, c, n)]: bytes are copied until [c] has been copied
    or [n] bytes have. *)
Fixpoint memccpy (to from : list ascii) (c : ascii) (n : nat) : list ascii :=
  match n, to, from with
  | S n', _ :: to', x :: from' =>
      x :: (if Ascii.eqb x c then to' else memccpy to' from' c n')
  | _, _, _ => to
  end.

(** The largest [size_t], here of 64 bits. *)
Definition SIZE_MAX : Z := 2 ^ 64 - 1.

(** [strlcpy] of the "Linux hacks": the array [to] after the call and the
    value returned, [l - 1] as a [size_t].  With [l] 0 nothing is copied,
    the NUL is written to the byte before the array, which is no cell of
    [to], and the -1 returned is [SIZE_MAX]. *)
Definition strlcpy (to from : list ascii) (l : nat) : list ascii * Z :=
  match l with
  | O => (to, SIZE_MAX)
  | S l' => (<[l' := NUL]> (memccpy to from NUL l), Z.of_nat l - 1)
  end.

(** [fgets(buf, size, file)] with [k] = [size - 1]: the characters read, up
    to [k] of them and none after a newline, and what is left of the stream.
    No character read is the NULL that [fgets] returns at the end of the
    file. *)
Fixpoint fgets (k : nat) (stream : list ascii) : list ascii * list ascii :=
  match k, stream with
  | S k', c :: rest =>
      if Ascii.eqb c LF then ([c], rest)
      else let (chars, others) := fgets k' rest in (c :: chars, others)
  | _, _ => ([], stream)
  end.

Section ProcessInput.
(** [PATH_MAX] of <limits.h>. *)
Variable PATH_MAX : nat.
(** What [malloc(PATH_MAX)] hands out for the name of the k-th file. *)
Variable heap : nat -> list ascii.

(** The loop [while (fgets(buf, PATH_MAX, file))] of [process_input], with
    [fuel] passes left: [files] holds the names stored in [files[0..line)]. *)
Fixpoint read_lines (fuel : nat) (stream buf : list ascii) (max_files : Z)
    (line : nat) (files : list (list ascii)) : list (list ascii) * nat :=
  match fuel with
  | O => (files, line)
  | S fuel' =>
      match fgets (PATH_MAX - 1) stream with
      | ([], _) => (files, line)
      | (chars, others) =>
          let buf := chars ++ NUL :: drop (S (length chars)) buf in
          if Ascii.eqb (byte_at 0 buf) NUL then
            read_lines fuel' others buf max_files line files
          else
            let len := length (c_string buf) in
            let buf :=
              if Ascii.eqb (byte_at (len - 1) buf) LF
              then <[(len - 1)%nat := NUL]> buf
              else buf in
            let files := files ++ [fst (strlcpy (heap line) buf PATH_MAX)] in
            if Z.of_nat (S line) >=? max_files then (files, S line)
            else read_lines fuel' others buf max_files (S line) files
      end
  end.

(** [process_input]: every pass of the loop takes a character off the
    stream, so as many passes as the stream has characters are enough.
    [buf] is the array as the function finds it. *)
Definition process_input (stream buf : list ascii) (max_files : Z)
  : list (list ascii) * nat :=
  read_lines (length stream) stream buf max_files 0 [].

End ProcessInput.

(** A text of lines, each ended by a newline. *)
Definition unlines (lines : list (list ascii)) : list ascii :=
  concat (map (fun l => l ++ [LF]) lines).

(** A name that a line of the input carries whole: no NUL and no newline
    in it, and room for it, the newline and the terminator in [buf]. *)
Definition plain_name (PATH_MAX : nat) (name : list ascii) : Prop :=
  (NUL ∉ name) /\ (LF ∉ name) /\ (length name + 2 <= PATH_MAX)%nat.

(** *** [set_fifo] *)

Inductive fifo_result :=
| fifo_ready (fifo : watch_file_t) (rv : Z)
| fifo_err (eval : Z) (msg : string)
| fifo_segv.

(** [set_fifo(argv)], given what [mkfifo] and [open] return.  The NULL name
    that [memset] leaves is the empty name here; the loop does not read
    it. *)
Definition set_fifo (argv : list string) (mkfifo_rv open_rv : Z)
  : fifo_result :=
  match argv !! 1%nat with
  | None => fifo_segv
  | Some (String "+"%char path) =>
      if mkfifo_rv =? -1 then
        fifo_err 1 ("mkfifo '" +:+ path +:+ "' failed")
      else if open_rv =? -1 then
        fifo_err 1 ("open fifo '" +:+ path +:+ "' failed")
      else fifo_ready {| fn := path; fd := open_rv |} 1
  | Some _ => fifo_ready {| fn := EmptyString; fd := 0 |} 0
  end.

(** *** [main] *)

(** [for (i=0; i<n_files; i++) watch_file(kq, files[i])] with [k] files
    left. *)
Fixpoint watch_files (E : env) (k i : nat) : M unit :=
  match k with
  | O => ret tt
  | S k' => bind (watch_file E (Some i)) (fun _ => watch_files E k' (S i))
  end.

(** What the start of the program gets from its environment. *)
Record startup := {
  sigemptyset_rv : Z;
  sigaction_rv : Z;
  rlim_max : Z;              (* rl.rlim_max as the [int] given to process_input *)
  mkfifo_rv : Z;
  fifo_open_rv : Z;
  kqueue_rv : Z;
  stdin : list ascii;
  stack : list ascii;        (* buf of process_input as it is found *)
  PATH_MAX : nat;
  heap : nat -> list ascii;
  unset_fd : Z;              (* the fd of a record before watch_file *)
  unset_evList : list struct_kevent;
  progname : string          (* __progname *)
}.

(** [sigemptyset(&act.sa_mask) & (sigaction(SIGINT, &act, NULL) != 0)] *)
Definition sigint_check (S : startup) : bool :=
  negb (Z.land (sigemptyset_rv S) (if sigaction_rv S =? 0 then 0 else 1) =? 0).

(** The two lines [usage] prints before [exit(1)]. *)
Definition usage_text (name : string) : string :=
  ("usage: " +:+ name +:+ " script [args] < filenames" +:+ newline) +:+
  ("       " +:+ name +:+ " +fifo < filenames" +:+ newline).

(** The records [process_input] allocates. *)
Definition records_of (S : startup) : list watch_file_t :=
  map (fun bytes => {| fn := String.string_of_list_ascii (c_string bytes);
                       fd := unset_fd S |})
    (fst (process_input (PATH_MAX S) (heap S) (stdin S) (stack S) (rlim_max S))).

Definition boot (S : startup) : proc :=
  {| files := records_of S; errno := 0; evList := unset_evList S;
     n_open := 0; n_close := 0; n_kevent := 0; trace := [] |}.

(** [main], with no test runner linked in: [watch_loop] does not return,
    the result is the process after [passes] passes of it. *)
Definition main (E : env) (S : startup) (argv : list string) (passes : nat)
  : outcome unit :=
  let p0 :=
    {| files := []; errno := 0; evList := unset_evList S;
       n_open := 0; n_close := 0; n_kevent := 0; trace := [] |} in
  if (length argv <? 2)%nat then Exit 1 (usage_text (progname S)) p0
  else if sigint_check S then Exit 1 "Failed to set SIGINT handler" p0
  else
    match set_fifo argv (mkfifo_rv S) (fifo_open_rv S) with
    | fifo_segv => Segv p0
    | fifo_err eval msg => Exit eval msg p0
    | fifo_ready fifo _ =>
        if kqueue_rv S =? -1 then Exit 1 "cannot create kqueue" p0
        else
          let n_files :=
            snd (process_input (PATH_MAX S) (heap S) (stdin S) (stack S)
                   (rlim_max S)) in
          bind (watch_files E n_files 0)
            (fun _ => watch_loop E {| fifo := fifo; argv := argv |} passes false)
            (boot S)
    end.

(** The same start with another result of [sigaction]. *)
Definition with_sigaction (S : startup) (r : Z) : startup :=
  {| sigemptyset_rv := sigemptyset_rv S; sigaction_rv := r;
     rlim_max := rlim_max S; mkfifo_rv := mkfifo_rv S;
     fifo_open_rv := fifo_open_rv S; kqueue_rv := kqueue_rv S;
     stdin := stdin S; stack := stack S; PATH_MAX := PATH_MAX S;
     heap := heap S; unset_fd := unset_fd S;
     unset_evList := unset_evList S; progname := progname S |}.

(** A sample start: two names on the input, descriptors handed out from 5
    on, nothing ever queued. *)
Definition sample_start : startup :=
  {| sigemptyset_rv := 0; sigaction_rv := 0; rlim_max := 1024;
     mkfifo_rv := 0; fifo_open_rv := 3; kqueue_rv := 4;
     stdin := unlines (map String.list_ascii_of_string ["a.txt"; "b.txt"]);
     stack := replicate 16 NUL; PATH_MAX := 16;
     heap := fun _ => replicate 16 NUL;
     unset_fd := 0;
     unset_evList := replicate 32 (EV_SET 0 0 0 0 0 None);
     progname := "entr" |}.

Definition sample_kernel : env :=
  {| open_ret := fun k => {| rv := 5 + Z.of_nat k; en := 0 |};
     close_ret := fun _ => {| rv := 0; en := 0 |};
     kevent_ret_of := fun _ => kevent_gets [] |}.

(** *** Words for the batches of the loop *)

(** The test of the loop: one of NOTE_DELETE, NOTE_WRITE, NOTE_EXTEND. *)
Definition qualifies (ev : struct_kevent) : bool :=
  has (fflags ev) NOTE_DELETE || has (fflags ev) NOTE_WRITE
  || has (fflags ev) NOTE_EXTEND.

(** A change of the file's contents that does not replace the file. *)
Definition plain_change (ev : struct_kevent) : bool :=
  negb (has (fflags ev) NOTE_DELETE) && qualifies ev.

(** The bytes the loop writes to the FIFO for the file [ev] is tagged
    with. *)
Definition fifo_bytes (files : list watch_file_t) (ev : struct_kevent)
  : string :=
  match udata ev with
  | Some i =>
      match files !! i with
      | Some f => fn f +:+ c_str newline
      | None => EmptyString
      end
  | None => EmptyString
  end.

(** The event is tagged with a record that exists. *)
Definition tagged (files : list watch_file_t) (ev : struct_kevent) : Prop :=
  exists i f, udata ev = Some i /\ files !! i = Some f.

Fixpoint concat_strings (l : list string) : string :=
  match l with
  | [] => EmptyString
  | x :: rest => x +:+ concat_strings rest
  end.

(** What the loop does for such an event in FIFO mode, and in command
    mode. *)
Definition fifo_line (d : Z) (files : list watch_file_t) (ev : struct_kevent)
  : list action :=
  match udata ev with
  | Some i =>
      match files !! i with
      | Some f => [a_write d (fn f); a_write d (c_str newline); a_fsync d]
      | None => []
      end
  | None => []
  end.

Definition command_run (argv : list string) : list action :=
  [a_run_script (argv !! 1%nat) (drop 1 argv); a_kevent [] 32 (Some t)].

End Startup.

(** * Properties of the shim *)

Module ShimFacts.
Import Event Inotify Shim.

(** ** The registry lookup *)

Lemma file_by_descriptor_from_Some (fs : list WatchFile) (w : Z) :
  forall i p,
    file_by_descriptor_from i fs w = Some p ->
    exists q f,
      p = (i + q)%nat /\ fs !! q = Some f /\ fd f = w /\
      forall q' g, (q' < q)%nat -> fs !! q' = Some g -> fd g <> w.
Proof.
  induction fs as [|f fs IH]; intros i p H; simpl in H; [discriminate|].
  destruct (fd f =? w) eqn:Hf.
  - inversion H; subst p. exists 0%nat, f.
    repeat split; [lia | apply Z.eqb_eq, Hf | intros; lia].
  - destruct (IH _ _ H) as (q & g & -> & Hq & Hg & Hfirst).
    exists (S q), g. repeat split; [lia | exact Hq | exact Hg |].
    intros [|q'] g' Hlt Hl; simpl in Hl.
    + inversion Hl; subst g'. apply Z.eqb_neq, Hf.
    + apply (Hfirst q'); [lia | exact Hl].
Qed.

Lemma file_by_descriptor_from_None (fs : list WatchFile) (w : Z) :
  forall i,
    file_by_descriptor_from i fs w = None <->
    forall q g, fs !! q = Some g -> fd g <> w.
Proof.
  induction fs as [|f fs IH]; intros i; simpl.
  - split; [intros _ q g Hq; destruct q; discriminate | reflexivity].
  - destruct (fd f =? w) eqn:Hf.
    + split; [discriminate|]. intros H. exfalso.
      apply (H 0%nat f); [reflexivity | apply Z.eqb_eq, Hf].
    + rewrite IH. split.
      * intros H [|q] g Hq; simpl in Hq.
        -- inversion Hq; subst g. apply Z.eqb_neq, Hf.
        -- exact (H q g Hq).
      * intros H q g Hq. exact (H (S q) g Hq).
Qed.

Lemma file_by_descriptor_Some (fs : list WatchFile) (w : Z) (p : nat) :
  file_by_descriptor fs w = Some p ->
  exists f, fs !! p = Some f /\ fd f = w /\
    forall q g, (q < p)%nat -> fs !! q = Some g -> fd g <> w.
Proof.
  intros H. destruct (file_by_descriptor_from_Some _ _ _ _ H)
    as (q & f & -> & Hq & Hf & Hfirst).
  exists f. simpl. auto.
Qed.

Lemma file_by_descriptor_None (fs : list WatchFile) (w : Z) :
  file_by_descriptor fs w = None <->
  forall q g, fs !! q = Some g -> fd g <> w.
Proof. apply file_by_descriptor_from_None. Qed.

(** The first record that stores [w] is the one found. *)
Lemma file_by_descriptor_first (fs : list WatchFile) (w : Z) (p : nat)
    (f : WatchFile) :
  fs !! p = Some f -> fd f = w ->
  (forall q g, (q < p)%nat -> fs !! q = Some g -> fd g <> w) ->
  file_by_descriptor fs w = Some p.
Proof.
  intros Hp Hf Hfirst.
  destruct (file_by_descriptor fs w) as [p'|] eqn:Hl.
  - destruct (file_by_descriptor_Some _ _ _ Hl) as (f' & Hp' & Hf' & Hfirst').
    destruct (Nat.lt_trichotomy p p') as [Hlt | [-> | Hgt]]; [|reflexivity|].
    + exfalso. exact (Hfirst' p f Hlt Hp Hf).
    + exfalso. exact (Hfirst p' f' Hgt Hp' Hf').
  - exfalso. exact (proj1 (file_by_descriptor_None fs w) Hl p f Hp Hf).
Qed.

(** ** The registration path *)

Section Changes.
Variable add_watch_ret : nat -> Z.
Variable sizeof_kevent : nat.

Let kevent1 kev r := kevent_changes add_watch_ret sizeof_kevent [kev] 1 r.

(** EV_DELETE: the watch is removed and the handle invalidated. *)
Lemma kevent_delete (kev : struct_kevent) (r : registry) (p : nat)
    (f : WatchFile) :
  filter kev = EVFILT_VNODE -> has (flags kev) EV_DELETE = true ->
  udata kev = Some p -> files r !! p = Some f ->
  kevent1 kev r =
    Returned 1
      {| files := <[p := {| fn := fn f; fd := -1 |}]> (files r);
         adds := adds r;
         calls := calls r ++ [inotify_rm_watch (ident kev)] |}.
Proof.
  intros Hfilter Hdel Hu Hp. unfold kevent1, kevent_changes. simpl.
  rewrite Nat.mul_0_r. simpl. rewrite Hfilter, Hdel, Hu, Hp. reflexivity.
Qed.

(** EV_ADD: the handle is replaced with the watch descriptor. *)
Lemma kevent_add (kev : struct_kevent) (r : registry) (p : nat)
    (f : WatchFile) :
  filter kev = EVFILT_VNODE -> has (flags kev) EV_DELETE = false ->
  has (flags kev) EV_ADD = true ->
  udata kev = Some p -> files r !! p = Some f ->
  0 <= add_watch_ret (adds r) ->
  kevent1 kev r =
    Returned 1
      {| files := <[p := {| fn := fn f; fd := add_watch_ret (adds r) |}]> (files r);
         adds := S (adds r);
         calls := calls r ++ [inotify_add_watch (fn f) IN_ALL; close (fd f)] |}.
Proof.
  intros Hfilter Hdel Hadd Hu Hp Hw. unfold kevent1, kevent_changes. simpl.
  rewrite Nat.mul_0_r. simpl. rewrite Hfilter, Hdel, Hadd, Hu, Hp. simpl.
  destruct (add_watch_ret (adds r) <? 0) eqn:Hneg; [|reflexivity].
  apply Z.ltb_lt in Hneg. lia.
Qed.

(** One more call at the end of a history. *)
Lemma run_changes_snoc (history : list struct_kevent) (kev : struct_kevent)
    (v : Z) :
  forall r0 r r',
    run_changes add_watch_ret sizeof_kevent history r0 = Some r ->
    kevent1 kev r = Returned v r' ->
    run_changes add_watch_ret sizeof_kevent (history ++ [kev]) r0 = Some r'.
Proof.
  unfold kevent1.
  induction history as [|k rest IH]; intros r0 r r' Hrun Hlast; simpl in *.
  - inversion Hrun; subst r0. rewrite Hlast. reflexivity.
  - destruct (kevent_changes _ _ [k] 1 r0); [|discriminate].
    eapply IH; eassumption.
Qed.

(** The address of the n-th change is computed as
    [changelist + sizeof(struct kevent)*n] on a pointer to [struct kevent]:
    with two changes in a two-element array the second one is read behind
    the array. *)
Lemma second_change_is_read_behind_the_array (kev1 kev2 : struct_kevent)
    (r : registry) :
  (1 < sizeof_kevent)%nat -> filter kev1 <> EVFILT_VNODE ->
  kevent_changes add_watch_ret sizeof_kevent [kev1; kev2] 2 r = Fault.
Proof.
  intros Hsz Hfilter. unfold kevent_changes. simpl.
  rewrite Nat.mul_0_r. simpl. apply Z.eqb_neq in Hfilter. rewrite Hfilter.
  simpl. rewrite Nat.mul_1_r.
  destruct sizeof_kevent as [|[|sz]]; [lia | lia | reflexivity].
Qed.
End Changes.

(** The sentinel that invalidation stores is a stored value like any
    other: a lookup of -1 finds the invalidated record. *)
Lemma sentinel_is_found :
  let r0 := {| files := [ {| fn := "a.txt"; fd := 3 |} ]; adds := 0; calls := [] |} in
  let add := EV_SET 3 EVFILT_VNODE (Z.lor EV_ADD EV_CLEAR) 7 0 (Some 0%nat) in
  let del := EV_SET 1 EVFILT_VNODE EV_DELETE 0 0 (Some 0%nat) in
  exists r,
    run_changes (fun _ => 1) 32 [add; del] r0 = Some r /\
    files r = [ {| fn := "a.txt"; fd := -1 |} ] /\
    file_by_descriptor (files r) 1 = None /\
    file_by_descriptor (files r) (-1) = Some 0%nat.
Proof. eexists. repeat split. Qed.

(** C3, amended.  After every sequence of registrations, invalidations
    and replacements, [file_by_descriptor w] returns the first record that
    stores [w], which is the record registered under [w] when no other
    record stores it, and NULL exactly when no record stores [w]; an
    invalidation leaves the handle it removes unfound when no other record
    stores it, while the sentinel -1 it stores is found from then on; a
    registration or replacement makes the new watch descriptor found. *)
Theorem file_by_descriptor_after_changes (add_watch_ret : nat -> Z)
    (sizeof_kevent : nat) (history : list struct_kevent) (r0 r : registry)
    (w : Z) :
  run_changes add_watch_ret sizeof_kevent history r0 = Some r ->
  (forall p f,
      files r !! p = Some f -> fd f = w ->
      (forall q g, files r !! q = Some g -> fd g = w -> q = p) ->
      file_by_descriptor (files r) w = Some p) /\
  (forall p,
      file_by_descriptor (files r) w = Some p ->
      exists f, files r !! p = Some f /\ fd f = w) /\
  (file_by_descriptor (files r) w = None <->
     forall q g, files r !! q = Some g -> fd g <> w) /\
  (forall del p f,
      filter del = EVFILT_VNODE -> has (flags del) EV_DELETE = true ->
      udata del = Some p -> files r !! p = Some f -> fd f = w ->
      exists r',
        run_changes add_watch_ret sizeof_kevent (history ++ [del]) r0 = Some r' /\
        (w <> -1 ->
         (forall q g, files r !! q = Some g -> fd g = w -> q = p) ->
         file_by_descriptor (files r') w = None) /\
        exists q, (q <= p)%nat /\ file_by_descriptor (files r') (-1) = Some q) /\
  (forall add p f,
      filter add = EVFILT_VNODE -> has (flags add) EV_DELETE = false ->
      has (flags add) EV_ADD = true ->
      udata add = Some p -> files r !! p = Some f ->
      add_watch_ret (adds r) = w -> 0 <= w ->
      exists r' q,
        run_changes add_watch_ret sizeof_kevent (history ++ [add]) r0 = Some r' /\
        (q <= p)%nat /\ file_by_descriptor (files r') w = Some q /\
        ((forall q' g, q' <> p -> files r !! q' = Some g -> fd g <> w) -> q = p)).
Proof.
  intros Hrun. repeat split.
  - intros p f Hp Hf Huniq. apply (file_by_descriptor_first _ _ _ f Hp Hf).
    intros q g Hlt Hq Hg. specialize (Huniq q g Hq Hg). lia.
  - intros p H. destruct (file_by_descriptor_Some _ _ _ H) as (f & Hp & Hf & _).
    exists f. auto.
  - apply file_by_descriptor_None.
  - apply file_by_descriptor_None.
  - intros del p f Hfilter Hdel Hu Hp Hf.
    eexists. split; [|split].
    + eapply run_changes_snoc; [exact Hrun|].
      apply (kevent_delete _ _ del r p f Hfilter Hdel Hu Hp).
    + intros Hw Huniq. simpl. apply file_by_descriptor_None.
      intros q g Hq. apply list_lookup_insert_Some in Hq.
      destruct Hq as [(<- & <- & _) | (Hne & Hq)]; simpl; [lia|].
      intros Hg. apply Hne. symmetry. exact (Huniq q g Hq Hg).
    + simpl. set (fs := <[p := _]> (files r)).
      assert (Hp' : fs !! p = Some {| fn := fn f; fd := -1 |}).
      { apply list_lookup_insert_eq. eapply lookup_lt_Some, Hp. }
      destruct (file_by_descriptor fs (-1)) as [q|] eqn:Hl.
      * exists q. split; [|reflexivity].
        destruct (file_by_descriptor_Some _ _ _ Hl) as (g & _ & _ & Hfirst).
        destruct (Nat.le_gt_cases q p) as [|Hgt]; [assumption|].
        exfalso. exact (Hfirst p _ Hgt Hp' eq_refl).
      * exfalso.
        exact (proj1 (file_by_descriptor_None fs (-1)) Hl p _ Hp' eq_refl).
  - intros add p f Hfilter Hdel Hadd Hu Hp Hw Hpos.
    assert (Hrun' := run_changes_snoc add_watch_ret sizeof_kevent history add 1
                       r0 r _ Hrun
                       (kevent_add _ _ add r p f Hfilter Hdel Hadd Hu Hp
                          ltac:(rewrite Hw; exact Hpos))).
    rewrite Hw in Hrun'.
    set (fs := <[p := {| fn := fn f; fd := w |}]> (files r)).
    assert (Hp' : fs !! p = Some {| fn := fn f; fd := w |}).
    { apply list_lookup_insert_eq. eapply lookup_lt_Some, Hp. }
    destruct (file_by_descriptor fs w) as [q|] eqn:Hl.
    + destruct (file_by_descriptor_Some _ _ _ Hl) as (g & Hq & Hg & Hfirst).
      eexists. exists q. split; [exact Hrun'|]. simpl. fold fs.
      assert (Hle : (q <= p)%nat).
      { destruct (Nat.le_gt_cases q p) as [|Hgt]; [assumption|].
        exfalso. exact (Hfirst p _ Hgt Hp' eq_refl). }
      repeat split; [exact Hle | exact Hl |].
      intros Hothers. destruct (Nat.eq_dec q p) as [|Hne]; [assumption|].
      exfalso. unfold fs in Hq. rewrite list_lookup_insert_ne in Hq by auto.
      exact (Hothers q g Hne Hq Hg).
    + exfalso.
      exact (proj1 (file_by_descriptor_None fs w) Hl p _ Hp' eq_refl).
Qed.

(** ** The wait path *)

Lemma store_eq (m : Z -> struct_kevent) (i : Z) (e : struct_kevent) :
  store m i e i = e.
Proof. unfold store. rewrite Z.eqb_refl. reflexivity. Qed.

Lemma store_ne (m : Z -> struct_kevent) (i j : Z) (e : struct_kevent) :
  j <> i -> store m i e j = m j.
Proof. intros H. unfold store. apply Z.eqb_neq in H. rewrite H. reflexivity. Qed.

(** A record that translates to no flag changes nothing. *)
Lemma record_step_no_flags (files : list WatchFile) (iev : inotify_event)
    (s : wait_state) :
  translate (mask iev) = 0 -> record_step files iev s = s.
Proof. intros H. unfold record_step. rewrite H. reflexivity. Qed.

(** A record for the identifier of the last produced event is merged into
    that event. *)
Lemma record_step_merge (files : list WatchFile) (iev : inotify_event)
    (s : wait_state) (k : nat) :
  0 < n s -> ident (eventlist s (n s - 1)) = wd iev ->
  translate (mask iev) <> 0 ->
  file_by_descriptor files (wd iev) = Some k ->
  let s' := record_step files iev s in
  n s' = n s /\
  eventlist s' (n s - 1) =
    {| ident := wd iev; filter := EVFILT_VNODE; flags := 0;
       fflags := Z.lor (translate (mask iev)) (fflags (eventlist s (n s - 1)));
       data := 0; udata := Some k |} /\
  (forall j, j <> n s - 1 -> eventlist s' j = eventlist s j) /\
  reads s' = reads s /\ diag s' = diag s.
Proof.
  intros Hn Hid Ht Hl. unfold record_step.
  apply Z.eqb_neq in Ht. rewrite Ht.
  apply Z.ltb_lt in Hn. apply Z.eqb_eq in Hid. rewrite Hn, Hid, Hl. simpl.
  repeat split.
  - lia.
  - apply store_eq.
  - intros j Hj. apply store_ne, Hj.
Qed.

(** A record for another identifier is appended, or dropped when its
    lookup fails. *)
Lemma record_step_new (files : list WatchFile) (iev : inotify_event)
    (s : wait_state) :
  (0 < n s -> ident (eventlist s (n s - 1)) <> wd iev) ->
  translate (mask iev) <> 0 ->
  let s' := record_step files iev s in
  let ev := {| ident := wd iev; filter := EVFILT_VNODE; flags := 0;
               fflags := translate (mask iev); data := 0;
               udata := file_by_descriptor files (wd iev) |} in
  n s' = match file_by_descriptor files (wd iev) with
         | Some _ => n s + 1
         | None => n s
         end /\
  eventlist s' (n s) = ev /\
  (forall j, j <> n s -> eventlist s' j = eventlist s j).
Proof.
  intros Hid Ht. unfold record_step.
  apply Z.eqb_neq in Ht. rewrite Ht.
  assert (Hm : (0 <? n s) && (ident (eventlist s (n s - 1)) =? wd iev) = false).
  { destruct (0 <? n s) eqn:Hn; [|reflexivity]. simpl.
    apply Z.eqb_neq, Hid. apply Z.ltb_lt, Hn. }
  rewrite Hm. simpl. repeat split.
  - apply store_eq.
  - intros j Hj. apply store_ne, Hj.
Qed.

Lemma translate_lor_nonzero (a b : Z) : a <> 0 -> Z.lor a b <> 0.
Proof. intros Ha H. apply Z.lor_eq_0_iff in H. tauto. Qed.

Lemma record_step_collecting (files : list WatchFile) (iev : inotify_event)
    (s : wait_state) :
  collecting files s -> collecting files (record_step files iev s).
Proof.
  intros [Hn Hcells].
  destruct (Z.eq_dec (translate (mask iev)) 0) as [Ht|Ht].
  { rewrite record_step_no_flags by exact Ht. split; assumption. }
  destruct (Z_lt_le_dec 0 (n s)) as [Hpos|Hzero].
  - destruct (Z.eq_dec (ident (eventlist s (n s - 1))) (wd iev)) as [Hid|Hid].
    + destruct (Hcells (n s - 1)) as (_ & Hflags & k & _ & Hl); [lia|].
      rewrite Hid in Hl.
      destruct (record_step_merge files iev s k Hpos Hid Ht Hl)
        as (En & Ecell & Eother & _).
      split; [lia|]. intros i Hi. rewrite En in Hi.
      destruct (Z.eq_dec i (n s - 1)) as [->|Hne].
      * rewrite Ecell. repeat split; simpl.
        -- apply translate_lor_nonzero, Ht.
        -- exists k. auto.
      * rewrite Eother by exact Hne. apply Hcells. lia.
    + destruct (record_step_new files iev s (fun _ => Hid) Ht)
        as (En & Ecell & Eother).
      destruct (file_by_descriptor files (wd iev)) as [k|] eqn:Hl.
      * split; [lia|]. intros i Hi. rewrite En in Hi.
        destruct (Z.eq_dec i (n s)) as [->|Hne].
        -- rewrite Ecell. repeat split; simpl; [exact Ht|]. exists k. auto.
        -- rewrite Eother by exact Hne. apply Hcells. lia.
      * split; [lia|]. intros i Hi. rewrite En in Hi.
        rewrite Eother by lia. apply Hcells. lia.
  - assert (Hid : 0 < n s -> ident (eventlist s (n s - 1)) <> wd iev) by lia.
    destruct (record_step_new files iev s Hid Ht) as (En & Ecell & Eother).
    destruct (file_by_descriptor files (wd iev)) as [k|] eqn:Hl.
    + split; [lia|]. intros i Hi. rewrite En in Hi.
      destruct (Z.eq_dec i (n s)) as [->|Hne].
      * rewrite Ecell. repeat split; simpl; [exact Ht|]. exists k. auto.
      * rewrite Eother by exact Hne. apply Hcells. lia.
    + split; [lia|]. intros i Hi. rewrite En in Hi. lia.
Qed.

Lemma read_records_collecting (files : list WatchFile) (nevents : Z)
    (records : list inotify_event) :
  forall s, collecting files s ->
            collecting files (read_records files nevents records s).
Proof.
  induction records as [|iev rest IH]; intros s Hs; simpl; [exact Hs|].
  destruct (n s <? nevents); [|exact Hs].
  apply IH, record_step_collecting, Hs.
Qed.

Lemma inotify_part_collecting (files : list WatchFile) (nevents : Z)
    (r : round) (s : wait_state) :
  collecting files s -> collecting files (inotify_part files nevents r s).
Proof.
  intros Hs. unfold inotify_part.
  destruct (in_ready r); [|exact Hs].
  destruct (rd r); [exact Hs|].
  apply read_records_collecting. exact Hs.
Qed.

Lemma emit_stdin_returned (files : list WatchFile) (s : wait_state) :
  collecting files s -> returned files (emit_stdin s).
Proof.
  intros [Hn Hcells]. split; simpl; [lia|].
  intros i Hi. destruct (Z.eq_dec i (n s)) as [->|Hne].
  - right. split; [lia | apply store_eq].
  - left. rewrite store_ne by exact Hne. apply Hcells. lia.
Qed.

Lemma collecting_returned (files : list WatchFile) (s : wait_state) :
  collecting files s -> returned files s.
Proof. intros [Hn Hcells]. split; [exact Hn|]. intros i Hi. left. auto. Qed.

Lemma do_while_returned (files : list WatchFile) (nevents : Z)
    (later : list round) :
  forall r s, collecting files s ->
              returned files (do_while files nevents later r s).
Proof.
  induction later as [|r' later IH]; intros r s Hs; simpl; unfold body;
    destruct (interrupted r).
  - apply collecting_returned. exact Hs.
  - destruct (stdin_ready r).
    + apply emit_stdin_returned, inotify_part_collecting, Hs.
    + apply collecting_returned, inotify_part_collecting, Hs.
  - apply IH. exact Hs.
  - destruct (stdin_ready r).
    + apply emit_stdin_returned, inotify_part_collecting, Hs.
    + apply IH, inotify_part_collecting, Hs.
Qed.

Lemma do_while_collecting (files : list WatchFile) (nevents : Z)
    (later : list round) :
  forall r s,
    stdin_ready r = false -> Forall (fun r => stdin_ready r = false) later ->
    collecting files s ->
    collecting files (do_while files nevents later r s).
Proof.
  induction later as [|r' later IH]; intros r s Hr Hlater Hs; simpl;
    unfold body; rewrite Hr; destruct (interrupted r).
  - exact Hs.
  - apply inotify_part_collecting, Hs.
  - inversion Hlater; subst. apply IH; assumption.
  - inversion Hlater; subst. apply IH; try assumption.
    apply inotify_part_collecting, Hs.
Qed.

Lemma start_collecting (files : list WatchFile)
    (eventlist : Z -> struct_kevent) :
  collecting files (start eventlist).
Proof. split; simpl; [lia | intros i Hi; lia]. Qed.

Lemma kevent_wait_returned (files : list WatchFile)
    (eventlist : Z -> struct_kevent) (nevents : Z) (timeout : option Z)
    (first : poll_ret) (later : list round) :
  returned files (kevent_wait files eventlist nevents timeout first later).
Proof.
  unfold kevent_wait.
  destruct timeout as [tv|]; [destruct first|];
    try (apply do_while_returned, start_collecting).
  apply collecting_returned, start_collecting.
Qed.

Lemma kevent_wait_collecting (files : list WatchFile)
    (eventlist : Z -> struct_kevent) (nevents : Z) (timeout : option Z)
    (first : poll_ret) (later : list round) :
  stdin_silent first later ->
  collecting files (kevent_wait files eventlist nevents timeout first later).
Proof.
  intros [Hfirst Hlater]. unfold kevent_wait.
  destruct timeout as [tv|]; [destruct first|];
    try (apply do_while_collecting; auto using start_collecting).
  apply start_collecting.
Qed.

Lemma read_records_full (files : list WatchFile) (nevents : Z)
    (records : list inotify_event) (s : wait_state) :
  nevents <= n s -> read_records files nevents records s = s.
Proof.
  intros H. destruct records as [|iev rest]; simpl; [reflexivity|].
  apply Z.ltb_ge in H. rewrite H. reflexivity.
Qed.

(** The records that translate to no flag can be taken out of the buffer
    without any difference to the result. *)
Lemma read_records_skips_no_flags (files : list WatchFile) (nevents : Z)
    (records : list inotify_event) :
  forall s,
    read_records files nevents records s =
    read_records files nevents
      (List.filter (fun iev => negb (translate (mask iev) =? 0)) records) s.
Proof.
  induction records as [|iev rest IH]; intros s; simpl; [reflexivity|].
  destruct (translate (mask iev) =? 0) eqn:Ht; simpl.
  - destruct (n s <? nevents) eqn:Hn.
    + rewrite record_step_no_flags by (apply Z.eqb_eq, Ht). apply IH.
    + symmetry. apply read_records_full. apply Z.ltb_ge, Hn.
  - destruct (n s <? nevents); [apply IH | reflexivity].
Qed.

Lemma record_step_diag (files : list WatchFile) (iev : inotify_event)
    (s : wait_state) :
  diag (record_step files iev s) = diag s /\
  reads (record_step files iev s) = reads s.
Proof.
  unfold record_step. destruct (translate (mask iev) =? 0); auto.
Qed.






(** ** Claims about the wait path *)

(** C4, amended.  The loop looks at a record only while [n < nevents].
    While that holds, a record with a flag to report whose watch identifier
    is the identifier of the event produced just before it is merged into
    that event: the flags are OR-ed and the event is overwritten in place,
    tagged with the first record of the registry that stores the identifier.
    Once [n] has reached [nevents] the records left in the buffer are
    dropped, a record for the identifier of the last event among them: it is
    not merged.  So a batch of two consecutive records for one registered
    watch identifier that translate to {WRITE} and {ATTRIB} yields exactly
    one event with flags {WRITE, ATTRIB} when [nevents] is above 1, one
    event with {WRITE} alone when [nevents] is 1, and none below that. *)
Theorem consecutive_records_are_merged (files : list WatchFile) (k : nat)
    (w nevents : Z) :
  file_by_descriptor files w = Some k ->
  (exists f, files !! k = Some f /\ fd f = w /\
     forall q g, (q < k)%nat -> files !! q = Some g -> fd g <> w) /\
  (forall iev rest s,
      wd iev = w -> 0 < n s -> ident (eventlist s (n s - 1)) = w ->
      translate (mask iev) <> 0 ->
      n s < nevents ->
      let s' := record_step files iev s in
      read_records files nevents (iev :: rest) s =
        read_records files nevents rest s' /\
      n s' = n s /\
      eventlist s' (n s - 1) =
        {| ident := w; filter := EVFILT_VNODE; flags := 0;
           fflags := Z.lor (translate (mask iev))
                       (fflags (eventlist s (n s - 1)));
           data := 0; udata := Some k |} /\
      forall j, j <> n s - 1 -> eventlist s' j = eventlist s j) /\
  (forall records s,
      nevents <= n s -> read_records files nevents records s = s) /\
  (forall evs first m1 m2 l1 l2,
      translate m1 = NOTE_WRITE -> translate m2 = NOTE_ATTRIB ->
      batch
        (kevent_wait files evs nevents None first
           [ {| in_ready := true; stdin_ready := false;
                rd := read_gets [ {| wd := w; mask := m1; len := l1 |};
                                  {| wd := w; mask := m2; len := l2 |} ] |} ])
      = if 1 <? nevents then
          [ {| ident := w; filter := EVFILT_VNODE; flags := 0;
               fflags := Z.lor NOTE_ATTRIB NOTE_WRITE;
               data := 0; udata := Some k |} ]
        else if 0 <? nevents then
          [ {| ident := w; filter := EVFILT_VNODE; flags := 0;
               fflags := NOTE_WRITE; data := 0; udata := Some k |} ]
        else []).
Proof.
  intros Hl. split; [exact (file_by_descriptor_Some files w k Hl)|].
  split; [|split].
  - intros iev rest s Hw Hn Hid Ht Hroom s'. subst w.
    destruct (record_step_merge files iev s k Hn Hid Ht Hl)
      as (En & Ecell & Eother & _).
    split; [|auto].
    simpl. apply Z.ltb_lt in Hroom. rewrite Hroom. reflexivity.
  - intros records s Hfull. apply read_records_full, Hfull.
  - intros evs first m1 m2 l1 l2 H1 H2.
    unfold kevent_wait, batch. simpl. unfold body. simpl.
    unfold inotify_part. simpl.
    set (a := {| wd := w; mask := m1; len := l1 |}).
    set (b := {| wd := w; mask := m2; len := l2 |}).
    set (s0 := count_read (start evs)).
    assert (Ha : translate (mask a) <> 0) by (simpl; rewrite H1; discriminate).
    assert (Hb : translate (mask b) <> 0) by (simpl; rewrite H2; discriminate).
    destruct (record_step_new files a s0) as (En1 & Ec1 & _);
      [simpl; lia | exact Ha |].
    simpl in En1, Ec1. rewrite Hl in En1, Ec1.
    change (n (record_step files a s0) = 1) in En1.
    destruct (record_step_merge files b (record_step files a s0) k)
      as (En2 & Ec2 & _); [lia | | exact Hb | exact Hl |].
    { rewrite En1. change (1 - 1) with 0. rewrite Ec1. reflexivity. }
    rewrite En1 in Ec2, En2. change (1 - 1) with 0 in Ec2.
    rewrite Ec1 in Ec2. simpl in Ec2.
    destruct (0 <? nevents) eqn:H0.
    + rewrite En1. destruct (1 <? nevents) eqn:H1'.
      * rewrite En2. simpl. change (Z.of_nat 0) with 0.
        rewrite Ec2, H1, H2. reflexivity.
      * rewrite En1. simpl. change (Z.of_nat 0) with 0.
        rewrite Ec1, H1. reflexivity.
    + assert (H1' : (1 <? nevents) = false).
      { apply Z.ltb_ge. apply Z.ltb_ge in H0. lia. }
      rewrite H1'. reflexivity.
Qed.

Lemma consecutive_records_are_merged_witness :
  file_by_descriptor Sample.registered 1 = Some 0%nat /\
  batch
    (kevent_wait Sample.registered Sample.blank 32 None poll_timeout
       [ Sample.inotify_readable [Sample.close_write_a; Sample.attrib_a] ])
  = [ {| ident := 1; filter := EVFILT_VNODE; flags := 0; fflags := 10;
         data := 0; udata := Some 0%nat |} ].
Proof.
  split; [reflexivity|].
  apply (proj2 (proj2 (proj2
           (consecutive_records_are_merged Sample.registered 0 1 32 eq_refl)))
           Sample.blank poll_timeout IN_CLOSE_WRITE IN_ATTRIB 0 0);
    reflexivity.
Defined.

(** With the 32 cells that entr passes, the record that would merge into
    the 32nd event is left unread: the event for the last file has {WRITE}
    alone, though the record behind it is for the same watch identifier and
    translates to {ATTRIB}. *)
Lemma full_buffer_drops_the_record_to_merge :
  let records := ShimExtra.close_write_each ++ [ShimExtra.attrib_last] in
  let s := kevent_wait ShimExtra.registered32 Sample.blank 32 None poll_timeout
             [ Sample.inotify_readable records ] in
  length records = 33%nat /\
  records !! 31%nat = Some {| wd := 32; mask := IN_CLOSE_WRITE; len := 0 |} /\
  records !! 32%nat = Some {| wd := 32; mask := IN_ATTRIB; len := 0 |} /\
  translate IN_CLOSE_WRITE = NOTE_WRITE /\ translate IN_ATTRIB = NOTE_ATTRIB /\
  n s = 32 /\
  eventlist s 31 =
    {| ident := 32; filter := EVFILT_VNODE; flags := 0; fflags := NOTE_WRITE;
       data := 0; udata := Some 31%nat |} /\
  NOTE_WRITE <> Z.lor NOTE_ATTRIB NOTE_WRITE.
Proof.
  intros records s.
  split; [vm_compute; reflexivity|]. split; [vm_compute; reflexivity|].
  split; [vm_compute; reflexivity|]. split; [reflexivity|].
  split; [reflexivity|]. split; [vm_compute; reflexivity|].
  split; [vm_compute; reflexivity | discriminate].
Qed.

(** C7.  A record whose translated flag set is empty yields no event: it
    leaves the collected events as they are, and the buffer read gives the
    same result without such records.  In the returned list every event that
    comes from a record has a flag set; the only other event is the stdin
    event, and a call in which stdin is never reported ready returns no
    event with an empty flag set. *)
Theorem zero_flag_records_are_not_surfaced (files : list WatchFile)
    (nevents : Z) :
  (forall iev s, translate (mask iev) = 0 -> record_step files iev s = s) /\
  (forall records s,
      read_records files nevents records s =
      read_records files nevents
        (List.filter (fun iev => negb (translate (mask iev) =? 0)) records) s) /\
  (forall evs timeout first later i,
      let s := kevent_wait files evs nevents timeout first later in
      0 <= i < n s ->
      (eventlist s i = stdin_event \/ fflags (eventlist s i) <> 0) /\
      (filter (eventlist s i) = EVFILT_VNODE -> fflags (eventlist s i) <> 0) /\
      (stdin_silent first later -> fflags (eventlist s i) <> 0)).
Proof.
  split; [|split].
  - intros iev s. apply record_step_no_flags.
  - intros records s. apply read_records_skips_no_flags.
  - intros evs timeout first later i s Hi. repeat split.
    + destruct (kevent_wait_returned files evs nevents timeout first later)
        as [_ Hcells].
      destruct (Hcells i Hi) as [(_ & Hflags & _) | [_ Hstdin]]; auto.
    + intros Hfilter.
      destruct (kevent_wait_returned files evs nevents timeout first later)
        as [_ Hcells].
      destruct (Hcells i Hi) as [(_ & Hflags & _) | [_ Hstdin]]; [exact Hflags|].
      fold s in Hstdin. rewrite Hstdin in Hfilter. discriminate.
    + intros Hsilent.
      destruct (kevent_wait_collecting files evs nevents timeout first later
                  Hsilent) as [_ Hcells].
      destruct (Hcells i Hi) as (_ & Hflags & _). exact Hflags.
Qed.

Lemma zero_flag_records_are_not_surfaced_witness :
  let s := kevent_wait Sample.registered Sample.blank 32 None poll_timeout
             [ Sample.inotify_readable
                 [Sample.modify_b; Sample.close_write_a; Sample.modify_b] ] in
  translate (mask Sample.modify_b) = 0 /\ n s = 1 /\
  fflags (eventlist s 0) <> 0.
Proof.
  intros s. split; [reflexivity|]. split; [reflexivity|].
  apply (proj2 (proj2 (zero_flag_records_are_not_surfaced Sample.registered 32))
           Sample.blank None poll_timeout
           [ Sample.inotify_readable
               [Sample.modify_b; Sample.close_write_a; Sample.modify_b] ] 0).
  - change (0 <= 0 < 1). lia.
  - split; [exact I|]. repeat constructor.
Defined.

(** C8, amended.  Stdin is tested in a pass only behind the inotify part,
    and a read that fails with EINTR leaves the pass by [continue] before
    that test.  When a pass reaches the test and finds stdin readable, it
    stores exactly one event of filter EVFILT_READ with a NULL tag at index
    [n], behind the events collected so far, and leaves the loop: the result
    does not depend on what later polls would report, and no further read is
    made.  The event is stored without a test of [n] against [nevents]: when
    the buffer is full it is written to the cell behind the caller's last and
    counted.  When the read of the pass fails with EINTR, stdin readable or
    not, no event is stored in that pass and the loop goes on with the next
    poll, after which it may read further records or end the call without
    the event.  In every returned batch an event of filter EVFILT_READ is
    this event, and it is the last one. *)
Theorem stdin_ready_ends_the_batch (files : list WatchFile) (nevents : Z)
    (r : round) (later : list round) (s : wait_state) :
  stdin_ready r = true ->
  let s1 := inotify_part files nevents r s in
  let s2 := do_while files nevents later r s in
  (interrupted r = false ->
   n s2 = n s1 + 1 /\
   eventlist s2 (n s1) = stdin_event /\
   filter stdin_event = EVFILT_READ /\ udata stdin_event = None /\
   (forall j, j <> n s1 -> eventlist s2 j = eventlist s1 j) /\
   reads s2 = reads s1 /\ diag s2 = diag s1 /\
   s2 = do_while files nevents [] r s /\
   (nevents <= n s1 ->
    nevents < n s2 /\ nevents <= n s2 - 1 /\
    eventlist s2 (n s2 - 1) = stdin_event)) /\
  (interrupted r = true ->
   body files nevents r s = (count_read s, Next) /\
   n (count_read s) = n s /\ eventlist (count_read s) = eventlist s /\
   s2 = match later with
        | [] => count_read s
        | r' :: later' => do_while files nevents later' r' (count_read s)
        end) /\
  (forall evs timeout first later' i,
      let s' := kevent_wait files evs nevents timeout first later' in
      0 <= i < n s' -> filter (eventlist s' i) = EVFILT_READ ->
      i = n s' - 1 /\ eventlist s' i = stdin_event).
Proof.
  intros Hstdin s1 s2. split; [|split].
  - intros Hint.
    assert (E : s2 = emit_stdin s1).
    { unfold s2, s1. destruct later; simpl; unfold body;
        rewrite Hint, Hstdin; reflexivity. }
    assert (E' : do_while files nevents [] r s = emit_stdin s1).
    { unfold s1. simpl. unfold body. rewrite Hint, Hstdin. reflexivity. }
    rewrite E', E. simpl.
    split; [reflexivity|]. split; [apply store_eq|].
    split; [reflexivity|]. split; [reflexivity|].
    split; [intros j Hj; apply store_ne, Hj|].
    split; [reflexivity|]. split; [reflexivity|]. split; [reflexivity|].
    intros Hfull. split; [lia|]. split; [lia|].
    replace (n s1 + 1 - 1) with (n s1) by lia. apply store_eq.
  - intros Hint.
    assert (Hbody : body files nevents r s = (count_read s, Next))
      by (unfold body; rewrite Hint; reflexivity).
    split; [exact Hbody|]. split; [reflexivity|]. split; [reflexivity|].
    unfold s2. destruct later; simpl; rewrite Hbody; reflexivity.
  - intros evs timeout first later' i s' Hi Hfilter.
    destruct (kevent_wait_returned files evs nevents timeout first later')
      as [_ Hcells].
    destruct (Hcells i Hi) as [(Hvnode & _) | Hlast]; [|exact Hlast].
    fold s' in Hvnode. rewrite Hvnode in Hfilter. discriminate.
Qed.

Lemma stdin_ready_ends_the_batch_witness :
  let r := Sample.both_readable [Sample.close_write_a] in
  let later := [Sample.inotify_readable [Sample.attrib_a]] in
  let s := start Sample.blank in
  stdin_ready r = true /\ interrupted r = false /\
  batch (do_while Sample.registered 32 later r s) =
    [ {| ident := 1; filter := EVFILT_VNODE; flags := 0; fflags := 2;
         data := 0; udata := Some 0%nat |}; stdin_event ] /\
  reads (do_while Sample.registered 32 later r s) = 1%nat /\
  n (do_while Sample.registered 1 later r s) = 2.
Proof.
  intros r later s.
  pose proof (proj1 (stdin_ready_ends_the_batch Sample.registered 32 r later s
                       eq_refl) eq_refl) as H.
  pose proof (proj1 (stdin_ready_ends_the_batch Sample.registered 1 r later s
                       eq_refl) eq_refl) as H1.
  split; [reflexivity|]. split; [reflexivity|]. split; [reflexivity|].
  split.
  - destruct H as (_ & _ & _ & _ & _ & Hreads & _). exact Hreads.
  - destruct H1 as (Hn & _). exact Hn.
Defined.

(** Stdin is readable, and the read of the same pass is interrupted: no
    event is stored for stdin in that pass.  When the next poll reports only
    the inotify descriptor, the call reads a further record and returns
    without an event for stdin; when the next poll reports nothing, the call
    returns no event at all. *)
Lemma interrupted_pass_does_not_test_stdin :
  let r := {| in_ready := true; stdin_ready := true;
              rd := read_fails EINTR |} in
  let s := kevent_wait Sample.registered Sample.blank 32 None poll_timeout
             [ r; Sample.inotify_readable [Sample.close_write_a] ] in
  stdin_ready r = true /\
  batch s =
    [ {| ident := 1; filter := EVFILT_VNODE; flags := 0; fflags := NOTE_WRITE;
         data := 0; udata := Some 0%nat |} ] /\
  reads s = 2%nat /\
  batch (kevent_wait Sample.registered Sample.blank 32 None poll_timeout [r])
    = [].
Proof. repeat split. Qed.

(** The stdin event is stored without a test of [n] against [nevents]:
    behind a full buffer it lands in the cell after the caller's last. *)
Lemma stdin_event_behind_full_buffer :
  let s := kevent_wait Sample.registered Sample.blank 1 None poll_timeout
             [ Sample.both_readable [Sample.close_write_a] ] in
  n s = 2 /\ eventlist s 1 = stdin_event.
Proof. split; reflexivity. Qed.

(** The buffer test comes before the merge: a record that would merge into
    the last event of a full buffer is left unread. *)
Lemma full_buffer_stops_merging :
  batch
    (kevent_wait Sample.registered Sample.blank 1 None poll_timeout
       [ Sample.inotify_readable [Sample.close_write_a; Sample.attrib_a] ])
  = [ {| ident := 1; filter := EVFILT_VNODE; flags := 0; fflags := NOTE_WRITE;
         data := 0; udata := Some 0%nat |} ].
Proof. reflexivity. Qed.



(** C10.  Every returned event of filter EVFILT_VNODE carries a tag that is
    not NULL: the registry record that the lookup of the event's identifier
    finds, whose stored handle is that identifier.  A record whose lookup
    fails adds no event, so an event with a NULL tag is of filter
    EVFILT_READ. *)
Theorem vnode_events_are_tagged (files : list WatchFile) (nevents : Z) :
  (forall evs timeout first later i,
      let s := kevent_wait files evs nevents timeout first later in
      0 <= i < n s ->
      (filter (eventlist s i) = EVFILT_VNODE ->
       exists k f,
         udata (eventlist s i) = Some k /\
         file_by_descriptor files (ident (eventlist s i)) = Some k /\
         files !! k = Some f /\ fd f = ident (eventlist s i)) /\
      (udata (eventlist s i) = None ->
       filter (eventlist s i) = EVFILT_READ /\ eventlist s i = stdin_event)) /\
  (forall iev s,
      collecting files s -> file_by_descriptor files (wd iev) = None ->
      n (record_step files iev s) = n s /\
      forall i, 0 <= i < n s ->
                eventlist (record_step files iev s) i = eventlist s i).
Proof.
  split.
  - intros evs timeout first later i s Hi.
    destruct (kevent_wait_returned files evs nevents timeout first later)
      as [_ Hcells].
    destruct (Hcells i Hi) as [(Hvnode & _ & k & Hu & Hl) | [_ Hstdin]];
      fold s in Hvnode, Hu, Hl || fold s in Hstdin.
    + split.
      * intros _.
        destruct (file_by_descriptor_Some _ _ _ Hl) as (f & Hk & Hf & _).
        exists k, f. auto.
      * intros Hnull. rewrite Hu in Hnull. discriminate.
    + rewrite Hstdin. split; [discriminate|]. intros _. split; reflexivity.
  - intros iev s [Hn Hcells] Hl.
    destruct (Z.eq_dec (translate (mask iev)) 0) as [Ht|Ht].
    { rewrite record_step_no_flags by exact Ht. auto. }
    assert (Hid : 0 < n s -> ident (eventlist s (n s - 1)) <> wd iev).
    { intros Hpos Hid.
      destruct (Hcells (n s - 1)) as (_ & _ & k & _ & Hl'); [lia|].
      rewrite Hid, Hl in Hl'. discriminate. }
    destruct (record_step_new files iev s Hid Ht) as (En & _ & Eother).
    rewrite Hl in En. split; [exact En|].
    intros i Hi. apply Eother. lia.
Qed.

Lemma vnode_events_are_tagged_witness :
  let s := kevent_wait Sample.registered Sample.blank 32 None poll_timeout
             [ Sample.both_readable [Sample.modify_b; Sample.close_write_a] ] in
  let s' := kevent_wait Sample.registered Sample.blank 32 None poll_timeout
              [ Sample.inotify_readable [Sample.close_write_a] ] in
  0 <= 0 < n s /\ filter (eventlist s 0) = EVFILT_VNODE /\
  (exists k f,
    udata (eventlist s 0) = Some k /\
    file_by_descriptor Sample.registered (ident (eventlist s 0)) = Some k /\
    Sample.registered !! k = Some f /\ fd f = ident (eventlist s 0)) /\
  collecting Sample.registered s' /\
  file_by_descriptor Sample.registered (wd Sample.unknown_deleted) = None /\
  n (record_step Sample.registered Sample.unknown_deleted s') = n s'.
Proof.
  intros s s'.
  assert (Hi : 0 <= 0 < n s) by (change (0 <= 0 < 2); lia).
  assert (Hs : collecting Sample.registered s').
  { apply kevent_wait_collecting. split; [exact I|]. repeat constructor. }
  split; [exact Hi|]. split; [reflexivity|]. split; [|split; [exact Hs|split]].
  - apply (proj1 (proj1 (vnode_events_are_tagged Sample.registered 32)
                    Sample.blank None poll_timeout
                    [ Sample.both_readable [Sample.modify_b; Sample.close_write_a] ]
                    0 Hi)).
    reflexivity.
  - reflexivity.
  - apply (proj2 (vnode_events_are_tagged Sample.registered 32)
             Sample.unknown_deleted s' Hs eq_refl).
Defined.

Lemma file_by_descriptor_after_changes_witness :
  let r0 := {| files := [ {| fn := "a.txt"; fd := 3 |} ]; adds := 0; calls := [] |} in
  let add := EV_SET 3 EVFILT_VNODE (Z.lor EV_ADD EV_CLEAR) 7 0 (Some 0%nat) in
  let r1 := {| files := [ {| fn := "a.txt"; fd := 1 |} ]; adds := 1;
               calls := [inotify_add_watch "a.txt" IN_ALL; close 3] |} in
  run_changes (fun _ => 1) 32 [add] r0 = Some r1 /\
  file_by_descriptor (files r1) 1 = Some 0%nat /\
  (file_by_descriptor (files r1) 3 = None <->
   forall q g, files r1 !! q = Some g -> fd g <> 3).
Proof.
  intros r0 add r1.
  assert (Hrun : run_changes (fun _ => 1) 32 [add] r0 = Some r1) by reflexivity.
  split; [exact Hrun|]. split.
  - apply (proj1 (file_by_descriptor_after_changes _ _ _ _ _ 1 Hrun) 0%nat
             {| fn := "a.txt"; fd := 1 |} eq_refl eq_refl).
    intros [|q] g Hq _; [reflexivity | discriminate].
  - apply (proj1 (proj2 (proj2 (file_by_descriptor_after_changes _ _ _ _ _ 3 Hrun)))).
Defined.

End ShimFacts.

(** * Properties of entr.c *)

Module EntrFacts.
Import Event Entr.

Lemma bind_Ret {A B} (c : M A) (k : A -> M B) (p p' : proc) (a : A) :
  c p = Ret a p' -> bind c k p = k a p'.
Proof. intros H. unfold bind. rewrite H. reflexivity. Qed.

Lemma load_Some (i : nat) (f : watch_file_t) (p : proc) :
  files p !! i = Some f -> load (Some i) p = Ret f p.
Proof. intros H. unfold load. rewrite H. reflexivity. Qed.

Section Program.
Variable E : env.

(** One attempt of the retry loop. *)
Lemma open_attempt (k i : nat) (f : watch_file_t) (p : proc) :
  files p !! i = Some f ->
  let r := open_ret E (n_open p) in
  let p' :=
    {| files := <[i := {| fn := fn f; fd := rv r |}]> (files p);
       errno := if rv r =? -1 then en r else errno p;
       evList := evList p;
       n_open := S (n_open p); n_close := n_close p; n_kevent := n_kevent p;
       trace := trace p ++ [a_open (fn f)] |} in
  open_loop E (S k) (Some i) p =
    if rv r =? -1 then open_loop E k (Some i) (log (a_usleep 100000) p')
    else Ret tt p'.
Proof.
  intros Hf r p'. simpl.
  rewrite (bind_Ret _ _ _ _ _ (load_Some i f p Hf)).
  unfold bind at 1. unfold sys_open at 1. cbv zeta.
  unfold bind at 1. unfold store_fd at 1. simpl. rewrite Hf.
  unfold bind at 1. unfold load at 1. simpl.
  rewrite list_lookup_insert_eq by (eapply lookup_lt_Some, Hf). simpl.
  fold r. destruct (rv r =? -1); reflexivity.
Qed.

(** The loop when every attempt fails: [k] opens, a sleep of 100ms after
    each, and -1 left in the record. *)
Lemma open_loop_fails (i : nat) :
  forall k p f,
    files p !! i = Some f ->
    (forall m, (m < S k)%nat -> rv (open_ret E (n_open p + m)) = -1) ->
    exists p',
      open_loop E (S k) (Some i) p = Ret tt p' /\
      files p' !! i = Some {| fn := fn f; fd := -1 |} /\
      errno p' = en (open_ret E (n_open p + k)) /\
      n_open p' = (n_open p + S k)%nat /\
      n_kevent p' = n_kevent p /\
      trace p' = trace p ++ failed_attempts (S k) (fn f) /\
      untouched i p p'.
Proof.
  induction k as [|k IH]; intros p f Hf Hfail.
  - rewrite (open_attempt 0 i f p Hf). cbv zeta.
    pose proof (Hfail 0%nat ltac:(lia)) as H0.
    rewrite Nat.add_0_r in H0 |- *. rewrite H0. simpl.
    eexists. split; [reflexivity|]. simpl.
    repeat split.
    + apply list_lookup_insert_eq. eapply lookup_lt_Some, Hf.
    + f_equal. lia.
    + rewrite <- app_assoc. reflexivity.
    + intros q Hq. apply list_lookup_insert_ne. auto.
  - rewrite (open_attempt (S k) i f p Hf). cbv zeta.
    pose proof (Hfail 0%nat ltac:(lia)) as H0.
    rewrite Nat.add_0_r in H0. rewrite H0. simpl Z.eqb. cbv iota.
    set (p1 := log _ _).
    assert (Hf1 : files p1 !! i = Some {| fn := fn f; fd := -1 |}).
    { simpl. apply list_lookup_insert_eq. eapply lookup_lt_Some, Hf. }
    destruct (IH p1 _ Hf1) as (p' & Hrun & Hi & Herrno & Hopen & Hkev & Htrace & Hun).
    { intros m Hm. simpl. rewrite <- Nat.add_succ_r. apply Hfail. lia. }
    exists p'. split; [exact Hrun|]. simpl in *.
    repeat split.
    + exact Hi.
    + rewrite Herrno. f_equal. f_equal. lia.
    + lia.
    + exact Hkev.
    + rewrite Htrace. unfold failed_attempts. simpl.
      rewrite <- !app_assoc. reflexivity.
    + intros q Hq. destruct Hun as (Hfiles & _). rewrite Hfiles by exact Hq.
      simpl. apply list_lookup_insert_ne. auto.
    + apply Hun.
    + apply Hun.
Qed.

(** The loop when the attempt after [j] failures returns a descriptor:
    it stops there. *)
Lemma open_loop_succeeds (i : nat) (d : Z) :
  forall j k p f,
    (j < k)%nat -> files p !! i = Some f ->
    (forall m, (m < j)%nat -> rv (open_ret E (n_open p + m)) = -1) ->
    rv (open_ret E (n_open p + j)) = d -> d <> -1 ->
    exists p',
      open_loop E k (Some i) p = Ret tt p' /\
      files p' !! i = Some {| fn := fn f; fd := d |} /\
      n_open p' = S (n_open p + j) /\
      n_kevent p' = n_kevent p /\
      trace p' = trace p ++ failed_attempts j (fn f) ++ [a_open (fn f)] /\
      untouched i p p'.
Proof.
  induction j as [|j IH]; intros k p f Hjk Hf Hfail Hd Hne;
    (destruct k as [|k]; [lia|]); rewrite (open_attempt k i f p Hf); cbv zeta.
  - rewrite Nat.add_0_r in Hd. rewrite Hd.
    apply Z.eqb_neq in Hne. rewrite Hne.
    eexists. split; [reflexivity|]. simpl. repeat split.
    + apply list_lookup_insert_eq. eapply lookup_lt_Some, Hf.
    + f_equal. lia.
    + intros q Hq. apply list_lookup_insert_ne. auto.
  - pose proof (Hfail 0%nat ltac:(lia)) as H0.
    rewrite Nat.add_0_r in H0. rewrite H0. simpl Z.eqb. cbv iota.
    set (p1 := log _ _).
    assert (Hf1 : files p1 !! i = Some {| fn := fn f; fd := -1 |}).
    { simpl. apply list_lookup_insert_eq. eapply lookup_lt_Some, Hf. }
    destruct (IH k p1 _ ltac:(lia) Hf1) as (p' & Hrun & Hi & Hopen & Hkev & Htrace & Hun).
    { intros m Hm. simpl. rewrite <- Nat.add_succ_r. apply Hfail. lia. }
    { simpl. rewrite <- Nat.add_succ_r. exact Hd. }
    { exact Hne. }
    exists p'. split; [exact Hrun|]. simpl in *.
    repeat split.
    + exact Hi.
    + lia.
    + exact Hkev.
    + rewrite Htrace. unfold failed_attempts. simpl.
      rewrite <- !app_assoc. reflexivity.
    + intros q Hq. destruct Hun as (Hfiles & _). rewrite Hfiles by exact Hq.
      simpl. apply list_lookup_insert_ne. auto.
    + apply Hun.
    + apply Hun.
Qed.

(** [watch_file] when none of the 20 attempts opens the file. *)
Lemma watch_file_gives_up (i : nat) (f : watch_file_t) (p : proc) :
  files p !! i = Some f ->
  (forall m, (m < 20)%nat -> rv (open_ret E (n_open p + m)) = -1) ->
  exists p',
    watch_file E (Some i) p =
      Exit (en (open_ret E (n_open p + 19)))
        ("cannot open `" +:+ fn f +:+ "'") p' /\
    trace p' = trace p ++ failed_attempts 20 (fn f) /\
    n_open p' = (n_open p + 20)%nat /\ n_kevent p' = n_kevent p.
Proof.
  intros Hf Hfail.
  destruct (open_loop_fails i 19 p f Hf Hfail)
    as (p' & Hrun & Hi & Herrno & Hopen & Hkev & Htrace & _).
  exists p'. split; [|auto].
  unfold watch_file. rewrite (bind_Ret _ _ _ _ _ Hrun).
  rewrite (bind_Ret _ _ _ _ _ (load_Some i _ p' Hi)). simpl.
  unfold bind, get_errno, err. rewrite Herrno. reflexivity.
Qed.

(** [watch_file] when the attempt after [j] failures opens the file as
    [d] and the registration goes through. *)
Lemma watch_file_registers (i j : nat) (d : Z) (f : watch_file_t) (p : proc) :
  (j < 20)%nat -> files p !! i = Some f ->
  (forall m, (m < j)%nat -> rv (open_ret E (n_open p + m)) = -1) ->
  rv (open_ret E (n_open p + j)) = d -> d <> -1 ->
  accepted (kevent_ret_of E (n_kevent p)) = true ->
  exists p',
    watch_file E (Some i) p = Ret tt p' /\
    files p' !! i = Some {| fn := fn f; fd := d |} /\
    trace p' =
      trace p ++ failed_attempts j (fn f) ++
      [a_open (fn f); a_kevent [evSet_of d (Some i)] 0 None] /\
    n_open p' = S (n_open p + j) /\ n_kevent p' = S (n_kevent p) /\
    untouched i p p'.
Proof.
  intros Hj Hf Hfail Hd Hne Hacc.
  destruct (open_loop_succeeds i d j 20 p f Hj Hf Hfail Hd Hne)
    as (p1 & Hrun & Hi & Hopen & Hkev & Htrace & Hfiles & HevList & Hclose).
  unfold watch_file. rewrite (bind_Ret _ _ _ _ _ Hrun).
  rewrite (bind_Ret _ _ _ _ _ (load_Some i _ p1 Hi)). simpl.
  apply Z.eqb_neq in Hne. rewrite Hne.
  unfold bind at 1. unfold ret at 1.
  rewrite (bind_Ret _ _ _ _ _ (load_Some i _ p1 Hi)). simpl.
  unfold bind, sys_kevent. rewrite Hkev.
  destruct (kevent_ret_of E (n_kevent p)) as [e|events]; simpl in Hacc |- *.
  - unfold get_errno, not_Success. simpl. rewrite Hacc. simpl.
    eexists. split; [reflexivity|]. simpl. repeat split; auto.
    rewrite Htrace, <- !app_assoc. reflexivity.
  - eexists. split; [reflexivity|]. simpl. repeat split; auto.
    rewrite Htrace, <- !app_assoc. reflexivity.
Qed.

End Program.

Lemma registrations_failed_attempts (k : nat) (path : string) :
  registrations (failed_attempts k path) = 0%nat.
Proof. induction k as [|k IH]; [reflexivity | exact IH]. Qed.

Lemma registrations_app (tr1 tr2 : list action) :
  registrations (tr1 ++ tr2) = (registrations tr1 + registrations tr2)%nat.
Proof.
  unfold registrations. rewrite List.filter_app, length_app. reflexivity.
Qed.

Section Dispatch.
Variable E : env.
Variable C : config.

Lemma substring_prefix (s t : string) :
  String.substring 0 (String.length s) (s +:+ t) = s.
Proof.
  induction s as [|c s IH]; simpl.
  - destruct t; reflexivity.
  - rewrite IH. reflexivity.
Qed.

(** The delivery to the FIFO: the name, then two bytes, then the flush. *)
Lemma deliver_fifo (i : nat) (f : watch_file_t) (p : proc) :
  fd (fifo C) <> 0 -> files p !! i = Some f ->
  exists p',
    deliver E C (Some i) p = Ret tt p' /\
    trace p' =
      trace p ++
      [ a_write (fd (fifo C)) (fn f);
        a_write (fd (fifo C)) (c_str newline);
        a_fsync (fd (fifo C)) ] /\
    files p' = files p /\ evList p' = evList p /\ n_kevent p' = n_kevent p.
Proof.
  intros Hfifo Hf. unfold deliver.
  apply Z.eqb_neq in Hfifo. rewrite Hfifo.
  rewrite (bind_Ret _ _ _ _ _ (load_Some i f p Hf)).
  eexists. split; [reflexivity|]. simpl. repeat split.
  unfold c_str, strlen. rewrite substring_prefix, <- !app_assoc. reflexivity.
Qed.

(** The delivery in command mode: the command is run, then the pending
    events are read into [evList]. *)
Lemma deliver_command (file : ptr) (p : proc) :
  fd (fifo C) = 0 ->
  exists p',
    deliver E C file p = Ret tt p' /\
    trace p' =
      trace p ++
      [ a_run_script (argv C !! 1%nat) (drop 1 (argv C));
        a_kevent [] 32 (Some t) ] /\
    files p' = files p /\ n_kevent p' = S (n_kevent p).
Proof.
  intros Hfifo. unfold deliver. rewrite Hfifo. simpl.
  unfold bind, run_script, sys_kevent. simpl.
  destruct (kevent_ret_of E (n_kevent p)); simpl;
    (eexists; split; [reflexivity|]); simpl; repeat split;
    rewrite <- !app_assoc; reflexivity.
Qed.

Lemma deliver_appends (file : ptr) (p : proc) :
  exists delivery, trace (state_of (deliver E C file p)) = trace p ++ delivery.
Proof.
  destruct (Z.eq_dec (fd (fifo C)) 0) as [Hfifo|Hfifo].
  - destruct (deliver_command file p Hfifo) as (p' & -> & Htrace & _).
    eexists. exact Htrace.
  - destruct file as [i|].
    + destruct (files p !! i) as [f|] eqn:Hf.
      * destruct (deliver_fifo i f p Hfifo Hf) as (p' & -> & Htrace & _).
        eexists. exact Htrace.
      * exists []. unfold deliver. apply Z.eqb_neq in Hfifo. rewrite Hfifo.
        unfold bind, load. rewrite Hf. simpl. rewrite app_nil_r. reflexivity.
    + exists []. unfold deliver. apply Z.eqb_neq in Hfifo. rewrite Hfifo.
      simpl. rewrite app_nil_r. reflexivity.
Qed.

Lemma invocations_app (tr1 tr2 : list action) :
  invocations (tr1 ++ tr2) = (invocations tr1 + invocations tr2)%nat.
Proof.
  unfold invocations. rewrite List.filter_app, length_app. reflexivity.
Qed.

(** With nothing more queued, the read after the command leaves [evList]
    as it is, and the loop runs the command for each event of the batch that
    reports a write: as many invocations as events. *)
Lemma for_events_runs_command_per_event :
  forall k i p,
    fd (fifo C) = 0 ->
    (forall m, kevent_ret_of E (n_kevent p + m) = kevent_gets []) ->
    (forall q, (i <= q < i + k)%nat ->
               exists ev, evList p !! q = Some ev /\
                          has (fflags ev) NOTE_DELETE = false /\
                          has (fflags ev) NOTE_WRITE = true) ->
    exists p',
      for_events E C k i p = Ret tt p' /\
      invocations (trace p') = (invocations (trace p) + k)%nat.
Proof.
  induction k as [|k IH]; intros i p Hfifo Hquiet Hevents; simpl.
  - exists p. split; [reflexivity | lia].
  - destruct (Hevents i ltac:(lia)) as (ev & Hev & Hdel & Hwrite).
    set (p1 :=
      {| files := files p; errno := errno p; evList := evList p;
         n_open := n_open p; n_close := n_close p;
         n_kevent := S (n_kevent p);
         trace := (trace p ++ [a_run_script (argv C !! 1%nat) (drop 1 (argv C))])
                  ++ [a_kevent [] 32 (Some t)] |}).
    assert (Hstep : dispatch E C i p = Ret tt p1).
    { unfold dispatch, bind, event_at. rewrite Hev, Hdel, Hwrite. simpl.
      unfold deliver. rewrite Hfifo. simpl.
      unfold bind, run_script, sys_kevent. simpl.
      pose proof (Hquiet 0%nat) as H0. rewrite Nat.add_0_r in H0.
      rewrite H0. reflexivity. }
    rewrite (bind_Ret _ _ _ _ _ Hstep).
    destruct (IH (S i) p1 Hfifo) as (p' & Hrun & Hcount).
    + intros m. simpl. rewrite <- Nat.add_succ_r. apply Hquiet.
    + intros q Hq. simpl. apply Hevents. lia.
    + exists p'. split; [exact Hrun|]. rewrite Hcount. simpl.
      rewrite !invocations_app.
      change (invocations [a_run_script (argv C !! 1%nat) (drop 1 (argv C))])
        with 1%nat.
      change (invocations [a_kevent [] 32 (Some t)]) with 0%nat. lia.
Qed.

(** C5, amended.  For an event with NOTE_DELETE the loop closes the
    descriptor the record holds and registers the file again, once: the
    record's handle becomes the descriptor that the first successful [open]
    returns, whether or not that number differs from the closed one.  All of
    this is done when the delivery for the same event starts. *)
Theorem delete_event_reregisters_before_delivery (idx i j : nat)
    (ev : struct_kevent) (f : watch_file_t) (d : Z) (p : proc) :
  evList p !! idx = Some ev -> has (fflags ev) NOTE_DELETE = true ->
  udata ev = Some i -> files p !! i = Some f ->
  rv (close_ret E (n_close p)) <> -1 ->
  (j < 20)%nat ->
  (forall m, (m < j)%nat -> rv (open_ret E (n_open p + m)) = -1) ->
  rv (open_ret E (n_open p + j)) = d -> d <> -1 ->
  accepted (kevent_ret_of E (n_kevent p)) = true ->
  exists p1,
    let steps :=
      [a_close (fd f)] ++ failed_attempts j (fn f) ++
      [a_open (fn f); a_kevent [evSet_of d (Some i)] 0 None] in
    trace p1 = trace p ++ steps /\
    registrations steps = 1%nat /\
    files p1 !! i = Some {| fn := fn f; fd := d |} /\
    (forall q, q <> i -> files p1 !! q = files p !! q) /\
    dispatch E C idx p = deliver E C (Some i) p1 /\
    exists delivery,
      trace (state_of (dispatch E C idx p)) = trace p ++ steps ++ delivery.
Proof.
  intros Hev Hdel Hu Hf Hclose Hj Hfail Hd Hne Hacc.
  set (r := close_ret E (n_close p)).
  set (pc :=
    {| files := files p; errno := if rv r =? -1 then en r else errno p;
       evList := evList p; n_open := n_open p; n_close := S (n_close p);
       n_kevent := n_kevent p; trace := trace p ++ [a_close (fd f)] |}).
  destruct (watch_file_registers E i j d f pc Hj Hf Hfail Hd Hne Hacc)
    as (p1 & Hrun & Hi & Htrace & _ & _ & Hfiles & _).
  assert (Hdispatch : dispatch E C idx p = deliver E C (Some i) p1).
  { unfold dispatch.
    assert (Hat : event_at idx p = Ret ev p).
    { unfold event_at. rewrite Hev. reflexivity. }
    rewrite (bind_Ret _ _ _ _ _ Hat). rewrite Hdel, Hu. simpl.
    unfold bind at 1. unfold bind at 1.
    rewrite (load_Some i f p Hf).
    unfold bind at 1. unfold sys_close at 1. cbv zeta. fold r.
    apply Z.eqb_neq in Hclose. fold r in Hclose.
    unfold bind at 1. rewrite Hclose. unfold ret at 1.
    change (log (a_close (fd f)) (set_errno r p)) with
      {| files := files p; errno := if rv r =? -1 then en r else errno p;
         evList := evList p; n_open := n_open p; n_close := n_close p;
         n_kevent := n_kevent p; trace := trace p ++ [a_close (fd f)] |}.
    simpl. fold pc. rewrite Hrun. reflexivity. }
  assert (Hsteps : trace p1 = trace p ++ [a_close (fd f)] ++
            failed_attempts j (fn f) ++
            [a_open (fn f); a_kevent [evSet_of d (Some i)] 0 None]).
  { rewrite Htrace. simpl. rewrite <- !app_assoc. reflexivity. }
  exists p1. cbv zeta. repeat split; auto.
  - rewrite !registrations_app, registrations_failed_attempts. reflexivity.
  - destruct (deliver_appends (Some i) p1) as (delivery & Hdelivery).
    exists delivery. rewrite Hdispatch, Hdelivery, Hsteps, <- !app_assoc.
    reflexivity.
Qed.

End Dispatch.

Lemma delete_event_reregisters_before_delivery_witness :
  let E := Sample.kernel_after_rename [Sample.deleted 1 6] 9 in
  let p := state_of (sys_kevent E [] 32 None (Sample.boot Sample.watched)) in
  evList p !! 0%nat = Some (Sample.deleted 1 6) /\
  files p !! 1%nat = Some {| fn := "b.txt"; fd := 6 |} /\
  exists p1,
    files p1 !! 1%nat = Some {| fn := "b.txt"; fd := 9 |} /\
    trace p1 =
      trace p ++
      [ a_close 6; a_open "b.txt"; a_usleep 100000; a_open "b.txt";
        a_kevent [evSet_of 9 (Some 1%nat)] 0 None ] /\
    dispatch E Sample.command_mode 0 p = deliver E Sample.command_mode (Some 1%nat) p1.
Proof.
  intros E p.
  split; [vm_compute; reflexivity|]. split; [vm_compute; reflexivity|].
  destruct (delete_event_reregisters_before_delivery E Sample.command_mode
              0 1 1 (Sample.deleted 1 6) {| fn := "b.txt"; fd := 6 |} 9 p)
    as (p1 & Htrace & _ & Hfile & _ & Hdispatch & _).
  - vm_compute; reflexivity.
  - reflexivity.
  - reflexivity.
  - vm_compute; reflexivity.
  - vm_compute; discriminate.
  - lia.
  - intros m Hm. assert (m = 0)%nat as -> by lia. vm_compute; reflexivity.
  - vm_compute; reflexivity.
  - discriminate.
  - vm_compute; reflexivity.
  - exists p1. auto.
Defined.

(** [open] hands out the lowest free descriptor, so the file that is
    opened again after the [close] gets the number it had: the handle does
    not change to a new value. *)
Lemma reopened_file_keeps_its_descriptor :
  let E := Sample.kernel [Sample.deleted 1 6] 6 in
  exists p,
    watch_loop E Sample.command_mode 1 true (Sample.boot Sample.watched)
      = Ret tt p /\
    take 4 (trace p) =
      [ a_kevent [] 32 None; a_close 6; a_open "b.txt";
        a_kevent [evSet_of 6 (Some 1%nat)] 0 None ] /\
    Sample.watched !! 1%nat = Some {| fn := "b.txt"; fd := 6 |} /\
    files p !! 1%nat = Some {| fn := "b.txt"; fd := 6 |}.
Proof.
  eexists. split; [vm_compute; reflexivity|].
  repeat split; vm_compute; reflexivity.
Qed.

(** C6, amended.  [watch_file] opens the path at most 20 times, sleeping
    100ms after each failure, and stops at the first success.  When all 20
    attempts fail the process ends at once through [err], which names the
    path in its message; the exit code it passes is the [errno] that the last
    [open] left. *)
Theorem watch_file_retries_the_open (E : env) (i : nat) (f : watch_file_t)
    (p : proc) :
  files p !! i = Some f ->
  ((forall m, (m < 20)%nat -> rv (open_ret E (n_open p + m)) = -1) ->
   exists p',
     watch_file E (Some i) p =
       Exit (en (open_ret E (n_open p + 19)))
         ("cannot open `" +:+ fn f +:+ "'") p' /\
     trace p' = trace p ++ failed_attempts 20 (fn f) /\
     n_open p' = (n_open p + 20)%nat) /\
  (forall j d,
      (j < 20)%nat ->
      (forall m, (m < j)%nat -> rv (open_ret E (n_open p + m)) = -1) ->
      rv (open_ret E (n_open p + j)) = d -> d <> -1 ->
      exists p',
        open_loop E 20 (Some i) p = Ret tt p' /\
        files p' !! i = Some {| fn := fn f; fd := d |} /\
        trace p' = trace p ++ failed_attempts j (fn f) ++ [a_open (fn f)] /\
        n_open p' = S (n_open p + j)).
Proof.
  intros Hf. split.
  - intros Hfail.
    destruct (watch_file_gives_up E i f p Hf Hfail)
      as (p' & Hrun & Htrace & Hopen & _).
    exists p'. auto.
  - intros j d Hj Hfail Hd Hne.
    destruct (open_loop_succeeds E i d j 20 p f Hj Hf Hfail Hd Hne)
      as (p' & Hrun & Hi & Hopen & _ & Htrace & _).
    exists p'. auto.
Qed.

Lemma watch_file_retries_the_open_witness :
  let p := Sample.boot Sample.watched in
  files p !! 0%nat = Some {| fn := "a.txt"; fd := 5 |} /\
  (exists p',
      watch_file Sample.kernel_without_file (Some 0%nat) p =
        Exit Sample.ENOENT "cannot open `a.txt'" p' /\
      n_open p' = 20%nat) /\
  (exists p',
      open_loop (Sample.kernel_after_rename [] 9) 20 (Some 0%nat) p = Ret tt p' /\
      files p' !! 0%nat = Some {| fn := "a.txt"; fd := 9 |} /\
      n_open p' = 2%nat).
Proof.
  intros p. split; [reflexivity|]. split.
  - destruct (proj1 (watch_file_retries_the_open Sample.kernel_without_file
                       0 {| fn := "a.txt"; fd := 5 |} p eq_refl))
      as (p' & Hrun & _ & Hopen).
    + intros m Hm. reflexivity.
    + exists p'. auto.
  - destruct (proj2 (watch_file_retries_the_open
                       (Sample.kernel_after_rename [] 9)
                       0 {| fn := "a.txt"; fd := 5 |} p eq_refl) 1%nat 9)
      as (p' & Hrun & Hfile & _ & Hopen).
    + lia.
    + intros m Hm. assert (m = 0)%nat as -> by lia. reflexivity.
    + reflexivity.
    + discriminate.
    + exists p'. auto.
Defined.

(** A file that cannot be opened ends the process with the code of the
    failure, here ENOENT, not with 1. *)
Lemma missing_file_exits_with_errno :
  exists p',
    watch_file Sample.kernel_without_file (Some 0%nat)
      (Sample.boot Sample.watched)
    = Exit 2 "cannot open `a.txt'" p' /\
    2 <> 1.
Proof. eexists. split; [vm_compute; reflexivity | discriminate]. Qed.

(** C1, as the code has it.  A batch of three qualifying events for three
    files, with nothing more pending when the loop reads the queue after the
    command: the command is run once for each of the three events. *)
Theorem command_runs_for_every_event_of_the_batch :
  let E := Sample.kernel
             [Sample.written_to 0 5; Sample.written_to 1 6; Sample.written_to 2 7]
             5 in
  exists p,
    watch_loop E Sample.command_mode 1 true (Sample.boot Sample.watched)
      = Ret tt p /\
    trace p =
      [ a_kevent [] 32 None;
        a_run_script (Some "make") ["make"; "test"]; a_kevent [] 32 (Some t);
        a_run_script (Some "make") ["make"; "test"]; a_kevent [] 32 (Some t);
        a_run_script (Some "make") ["make"; "test"]; a_kevent [] 32 (Some t) ] /\
    invocations (trace p) = 3%nat.
Proof.
  eexists. split; [vm_compute; reflexivity|].
  split; vm_compute; reflexivity.
Qed.

(** C2, as the code has it.  In FIFO mode every qualifying event of the
    batch gets its line and its flush and the command is never run, but the
    second [write] of each line has a count of 2: behind the newline it
    writes the NUL that ends the string literal. *)
Theorem fifo_line_is_followed_by_nul :
  let E := Sample.kernel
             [Sample.written_to 0 5; Sample.written_to 1 6; Sample.written_to 2 7]
             5 in
  exists p,
    watch_loop E Sample.fifo_mode 1 true (Sample.boot Sample.watched)
      = Ret tt p /\
    written 3 (trace p) =
      c_str ("a.txt" +:+ newline) +:+ c_str ("b.txt" +:+ newline) +:+
      c_str ("c.txt" +:+ newline) /\
    written 3 (trace p) <>
      ("a.txt" +:+ newline) +:+ ("b.txt" +:+ newline) +:+ ("c.txt" +:+ newline) /\
    flushes (trace p) = 3%nat /\ invocations (trace p) = 0%nat.
Proof.
  eexists. split; [vm_compute; reflexivity|].
  split; [vm_compute; reflexivity|].
  split; [vm_compute; discriminate|].
  split; vm_compute; reflexivity.
Qed.

End EntrFacts.

(** * More properties of the shim *)

Module ShimExtraFacts.
Import Event Inotify Shim ShimExtra.

(** ** The translation of the inotify mask *)

Lemma translate_cases (m : Z) :
  translate m =
    Z.lor (if has m IN_DELETE_SELF then NOTE_DELETE else 0)
      (Z.lor (if has m IN_CLOSE_WRITE || has m IN_CREATE then NOTE_WRITE else 0)
         (Z.lor (if has m IN_MOVE_SELF then NOTE_RENAME else 0)
            (if has m IN_ATTRIB then NOTE_ATTRIB else 0))).
Proof.
  unfold translate.
  destruct (has m IN_DELETE_SELF), (has m IN_CLOSE_WRITE), (has m IN_CREATE),
    (has m IN_MOVE_SELF), (has m IN_ATTRIB); reflexivity.
Qed.

Lemma translate_outside (m b : Z) :
  Z.land reportable b = 0 -> Z.land (translate m) b = 0.
Proof.
  unfold reportable. rewrite !Z.land_lor_distr_l, !Z.lor_eq_0_iff.
  intros (Hd & Hw & Hr & Ha).
  rewrite translate_cases, !Z.land_lor_distr_l.
  destruct (has m IN_DELETE_SELF), (has m IN_CLOSE_WRITE || has m IN_CREATE),
    (has m IN_MOVE_SELF), (has m IN_ATTRIB);
    rewrite ?Hd, ?Hw, ?Hr, ?Ha, ?Z.land_0_l; reflexivity.
Qed.

Lemma record_step_outside (files : list WatchFile) (iev : inotify_event)
    (s : wait_state) (b : Z) :
  Z.land reportable b = 0 ->
  (forall i, 0 <= i < n s -> Z.land (fflags (eventlist s i)) b = 0) ->
  forall i, 0 <= i < n (record_step files iev s) ->
            Z.land (fflags (eventlist (record_step files iev s) i)) b = 0.
Proof.
  intros Hb Hcells. unfold record_step.
  destruct (translate (mask iev) =? 0); [exact Hcells|].
  destruct ((0 <? n s) && (ident (eventlist s (n s - 1)) =? wd iev)) eqn:Hm.
  - apply andb_true_iff in Hm. destruct Hm as [Hn _]. apply Z.ltb_lt in Hn.
    simpl. intros i Hi. unfold store.
    destruct (i =? n s - 1) eqn:Hi'.
    + simpl. rewrite Z.land_lor_distr_l, translate_outside by exact Hb.
      rewrite Hcells by lia. reflexivity.
    + apply Z.eqb_neq in Hi'. apply Hcells.
      destruct (file_by_descriptor files (wd iev)); lia.
  - simpl. intros i Hi. unfold store.
    destruct (i =? n s) eqn:Hi'.
    + simpl. apply translate_outside, Hb.
    + apply Z.eqb_neq in Hi'. apply Hcells.
      destruct (file_by_descriptor files (wd iev)); lia.
Qed.

Lemma read_records_outside (files : list WatchFile) (nevents b : Z)
    (records : list inotify_event) :
  Z.land reportable b = 0 ->
  forall s,
    (forall i, 0 <= i < n s -> Z.land (fflags (eventlist s i)) b = 0) ->
    forall i, 0 <= i < n (read_records files nevents records s) ->
      Z.land (fflags (eventlist (read_records files nevents records s) i)) b = 0.
Proof.
  intros Hb. induction records as [|iev rest IH]; intros s Hs; simpl;
    [exact Hs|].
  destruct (n s <? nevents); [|exact Hs].
  apply IH, record_step_outside; assumption.
Qed.

Lemma body_outside (files : list WatchFile) (nevents b : Z) (r : round)
    (s : wait_state) :
  Z.land reportable b = 0 ->
  (forall i, 0 <= i < n s -> Z.land (fflags (eventlist s i)) b = 0) ->
  forall i, 0 <= i < n (fst (body files nevents r s)) ->
    Z.land (fflags (eventlist (fst (body files nevents r s)) i)) b = 0.
Proof.
  intros Hb Hs. unfold body.
  destruct (interrupted r); [exact Hs|].
  assert (H1 : forall i, 0 <= i < n (inotify_part files nevents r s) ->
             Z.land (fflags (eventlist (inotify_part files nevents r s) i)) b = 0).
  { unfold inotify_part. destruct (in_ready r); [|exact Hs].
    destruct (rd r); [exact Hs|]. apply read_records_outside; assumption. }
  destruct (stdin_ready r); [|exact H1].
  simpl. intros i Hi. unfold store.
  destruct (i =? n (inotify_part files nevents r s)) eqn:Hi'; [reflexivity|].
  apply Z.eqb_neq in Hi'. apply H1. lia.
Qed.

Lemma do_while_outside (files : list WatchFile) (nevents b : Z)
    (later : list round) :
  Z.land reportable b = 0 ->
  forall r s,
    (forall i, 0 <= i < n s -> Z.land (fflags (eventlist s i)) b = 0) ->
    forall i, 0 <= i < n (do_while files nevents later r s) ->
      Z.land (fflags (eventlist (do_while files nevents later r s) i)) b = 0.
Proof.
  intros Hb. induction later as [|r' later IH]; intros r s Hs; simpl;
    pose proof (body_outside files nevents b r s Hb Hs) as Hbody;
    destruct (body files nevents r s) as [s' [|]]; simpl in Hbody; auto.
Qed.

(** X1.  The shim reports no note but NOTE_DELETE, NOTE_WRITE, NOTE_RENAME
    and NOTE_ATTRIB: in every returned event each other bit of [fflags] is
    clear, NOTE_EXTEND among them; and a record is translated to no flag
    exactly when its mask has none of IN_DELETE_SELF, IN_CLOSE_WRITE,
    IN_CREATE, IN_MOVE_SELF and IN_ATTRIB, so a record of IN_MODIFY alone,
    though asked for in the watch mask, is never reported. *)
Theorem only_four_notes_are_reported (files : list WatchFile)
    (evs : Z -> struct_kevent) (nevents : Z) (timeout : option Z)
    (first : poll_ret) (later : list round) (i b : Z) :
  let s := kevent_wait files evs nevents timeout first later in
  0 <= i < n s -> Z.land reportable b = 0 ->
  Z.land (fflags (eventlist s i)) b = 0 /\
  has (fflags (eventlist s i)) NOTE_EXTEND = false /\
  (forall m,
      translate m = 0 <->
      has m IN_DELETE_SELF = false /\ has m IN_CLOSE_WRITE = false /\
      has m IN_CREATE = false /\ has m IN_MOVE_SELF = false /\
      has m IN_ATTRIB = false) /\
  has IN_ALL IN_MODIFY = true /\ translate IN_MODIFY = 0.
Proof.
  intros s Hi Hb.
  assert (Hall : forall b', Z.land reportable b' = 0 ->
                            Z.land (fflags (eventlist s i)) b' = 0).
  { intros b' Hb'. unfold s, kevent_wait.
    destruct timeout as [tv|]; [destruct first|];
      try (apply do_while_outside; [exact Hb' | simpl; intros; lia | exact Hi]).
    simpl in Hi. unfold s, kevent_wait in Hi. simpl in Hi. lia. }
  split; [exact (Hall b Hb)|]. split; [|split; [|split; reflexivity]].
  - unfold has. rewrite (Hall NOTE_EXTEND eq_refl). reflexivity.
  - intros m. rewrite translate_cases.
    destruct (has m IN_DELETE_SELF), (has m IN_CLOSE_WRITE), (has m IN_CREATE),
      (has m IN_MOVE_SELF), (has m IN_ATTRIB); simpl;
      split; intros H; try discriminate H; try reflexivity;
      try (destruct H as (H1 & H2 & H3 & H4 & H5); discriminate);
      repeat split.
Qed.

(** ** The caller's buffer *)

Lemma record_step_in_buffer (evs : Z -> struct_kevent) (nevents : Z)
    (files : list WatchFile) (iev : inotify_event) (s : wait_state) :
  n s < nevents -> in_buffer evs nevents s ->
  in_buffer evs nevents (record_step files iev s).
Proof.
  intros Hroom [Hn Hframe]. unfold record_step.
  destruct (translate (mask iev) =? 0); [split; assumption|].
  destruct ((0 <? n s) && (ident (eventlist s (n s - 1)) =? wd iev)) eqn:Hm.
  - apply andb_true_iff in Hm. destruct Hm as [Hpos _].
    apply Z.ltb_lt in Hpos. split; simpl.
    + destruct (file_by_descriptor files (wd iev)); lia.
    + intros j Hj. rewrite ShimFacts.store_ne by lia. apply Hframe, Hj.
  - split; simpl.
    + destruct (file_by_descriptor files (wd iev)); lia.
    + intros j Hj. rewrite ShimFacts.store_ne by lia. apply Hframe, Hj.
Qed.

Lemma read_records_in_buffer (evs : Z -> struct_kevent) (nevents : Z)
    (files : list WatchFile) (records : list inotify_event) :
  forall s, in_buffer evs nevents s ->
            in_buffer evs nevents (read_records files nevents records s).
Proof.
  induction records as [|iev rest IH]; intros s Hs; simpl; [exact Hs|].
  destruct (n s <? nevents) eqn:Hroom; [|exact Hs].
  apply IH, record_step_in_buffer; [apply Z.ltb_lt, Hroom | exact Hs].
Qed.

Lemma inotify_part_in_buffer (evs : Z -> struct_kevent) (nevents : Z)
    (files : list WatchFile) (r : round) (s : wait_state) :
  in_buffer evs nevents s ->
  in_buffer evs nevents (inotify_part files nevents r s).
Proof.
  intros Hs. unfold inotify_part. destruct (in_ready r); [|exact Hs].
  destruct (rd r); [exact Hs|]. apply read_records_in_buffer. exact Hs.
Qed.

Lemma in_buffer_at_most_one_behind (evs : Z -> struct_kevent) (nevents : Z)
    (s : wait_state) :
  in_buffer evs nevents s -> at_most_one_behind evs nevents s.
Proof.
  intros [Hn Hframe]. split; [lia|]. intros j Hj. apply Hframe. lia.
Qed.

Lemma emit_stdin_at_most_one_behind (evs : Z -> struct_kevent) (nevents : Z)
    (s : wait_state) :
  in_buffer evs nevents s -> at_most_one_behind evs nevents (emit_stdin s).
Proof.
  intros [Hn Hframe]. split; simpl; [lia|].
  intros j Hj. rewrite ShimFacts.store_ne by lia. apply Hframe. lia.
Qed.

Lemma do_while_at_most_one_behind (evs : Z -> struct_kevent) (nevents : Z)
    (files : list WatchFile) (later : list round) :
  forall r s,
    in_buffer evs nevents s ->
    at_most_one_behind evs nevents (do_while files nevents later r s).
Proof.
  induction later as [|r' later IH]; intros r s Hs; simpl; unfold body;
    destruct (interrupted r).
  - apply in_buffer_at_most_one_behind. exact Hs.
  - destruct (stdin_ready r).
    + apply emit_stdin_at_most_one_behind, inotify_part_in_buffer, Hs.
    + apply in_buffer_at_most_one_behind, inotify_part_in_buffer, Hs.
  - apply IH. exact Hs.
  - destruct (stdin_ready r).
    + apply emit_stdin_at_most_one_behind, inotify_part_in_buffer, Hs.
    + apply IH, inotify_part_in_buffer, Hs.
Qed.

Lemma do_while_in_buffer (evs : Z -> struct_kevent) (nevents : Z)
    (files : list WatchFile) (later : list round) :
  forall r s,
    stdin_ready r = false -> Forall (fun r => stdin_ready r = false) later ->
    in_buffer evs nevents s ->
    in_buffer evs nevents (do_while files nevents later r s).
Proof.
  induction later as [|r' later IH]; intros r s Hr Hlater Hs; simpl;
    unfold body; rewrite Hr; destruct (interrupted r).
  - exact Hs.
  - apply inotify_part_in_buffer, Hs.
  - inversion Hlater; subst. apply IH; assumption.
  - inversion Hlater; subst. apply IH; try assumption.
    apply inotify_part_in_buffer, Hs.
Qed.

Lemma start_in_buffer (evs : Z -> struct_kevent) (nevents : Z) :
  in_buffer evs nevents (start evs).
Proof. split; simpl; [lia | reflexivity]. Qed.

(** X2.  The count the wait path returns is never negative and exceeds the
    caller's [nevents] by at most one, and by none when no poll of the call
    reports stdin readable: the records are collected under the test
    [n < nevents], the stdin event is stored without it. *)
Theorem returned_count_is_bounded (files : list WatchFile)
    (evs : Z -> struct_kevent) (nevents : Z) (timeout : option Z)
    (first : poll_ret) (later : list round) :
  let s := kevent_wait files evs nevents timeout first later in
  0 <= n s <= Z.max 0 nevents + 1 /\
  (stdin_silent first later -> n s <= Z.max 0 nevents).
Proof.
  intros s. split.
  - unfold s, kevent_wait.
    destruct timeout as [tv|]; [destruct first|];
      try (apply (do_while_at_most_one_behind evs), start_in_buffer).
    simpl. lia.
  - intros [Hfirst Hlater]. unfold s, kevent_wait.
    destruct timeout as [tv|]; [destruct first|];
      try (apply (do_while_in_buffer evs); auto using start_in_buffer).
    simpl. lia.
Qed.

(** X3.  The wait path writes no cell of [eventlist] before the first or
    after the one that follows the caller's buffer of [nevents] cells, and
    none outside the buffer when no poll of the call reports stdin
    readable. *)
Theorem cells_outside_the_buffer_are_kept (files : list WatchFile)
    (evs : Z -> struct_kevent) (nevents : Z) (timeout : option Z)
    (first : poll_ret) (later : list round) (j : Z) :
  let s := kevent_wait files evs nevents timeout first later in
  (j < 0 \/ Z.max 0 nevents < j -> eventlist s j = evs j) /\
  (stdin_silent first later -> j < 0 \/ nevents <= j -> eventlist s j = evs j).
Proof.
  intros s. split.
  - intros Hj. unfold s, kevent_wait.
    destruct timeout as [tv|]; [destruct first|];
      try (apply (do_while_at_most_one_behind evs); auto using start_in_buffer).
    reflexivity.
  - intros [Hfirst Hlater] Hj. unfold s, kevent_wait.
    destruct timeout as [tv|]; [destruct first|];
      try (apply (do_while_in_buffer evs); auto using start_in_buffer).
    reflexivity.
Qed.

Lemma cells_outside_the_buffer_are_kept_witness :
  let s := kevent_wait Sample.registered Sample.blank 1 None poll_timeout
             [ Sample.inotify_readable [Sample.close_write_a; Sample.attrib_a] ] in
  stdin_silent poll_timeout
    [ Sample.inotify_readable [Sample.close_write_a; Sample.attrib_a] ] /\
  eventlist s 1 = Sample.blank 1.
Proof.
  intros s.
  assert (Hsilent : stdin_silent poll_timeout
            [ Sample.inotify_readable [Sample.close_write_a; Sample.attrib_a] ]).
  { split; [exact I|]. repeat constructor. }
  split; [exact Hsilent|].
  apply (proj2 (cells_outside_the_buffer_are_kept Sample.registered Sample.blank
                  1 None poll_timeout
                  [ Sample.inotify_readable [Sample.close_write_a; Sample.attrib_a] ]
                  1) Hsilent).
  right. lia.
Defined.

Lemma only_four_notes_are_reported_witness :
  let s := kevent_wait Sample.registered Sample.blank 32 None poll_timeout
             [ Sample.both_readable [Sample.close_write_a; Sample.attrib_a] ] in
  0 <= 0 < n s /\ Z.land reportable NOTE_EXTEND = 0 /\
  has (fflags (eventlist s 0)) NOTE_EXTEND = false.
Proof.
  intros s.
  assert (Hi : 0 <= 0 < n s) by (change (0 <= 0 < 2); lia).
  split; [exact Hi|]. split; [reflexivity|].
  exact (proj1 (proj2
    (only_four_notes_are_reported Sample.registered Sample.blank 32 None
       poll_timeout
       [ Sample.both_readable [Sample.close_write_a; Sample.attrib_a] ]
       0 NOTE_EXTEND Hi eq_refl))).
Defined.

(** ** One event for each record *)

Lemma read_records_appends (files : list WatchFile) (nevents : Z)
    (records : list inotify_event) :
  forall s,
    0 <= n s -> n s + Z.of_nat (length records) <= nevents ->
    (forall a, head records = Some a ->
               0 < n s -> ident (eventlist s (n s - 1)) <> wd a) ->
    distinct_neighbours records ->
    Forall (reportable_record files) records ->
    let s' := read_records files nevents records s in
    n s' = n s + Z.of_nat (length records) /\
    (forall j, j < n s -> eventlist s' j = eventlist s j) /\
    (forall i iev, records !! i = Some iev ->
                   eventlist s' (n s + Z.of_nat i) = event_of files iev) /\
    reads s' = reads s /\ diag s' = diag s.
Proof.
  induction records as [|a rest IH]; intros s Hn Hroom Hlast Hdistinct Hall.
  - simpl. repeat split; [lia|]. intros i iev Hi. discriminate.
  - simpl in Hroom |- *.
    assert (Hlt : (n s <? nevents) = true) by (apply Z.ltb_lt; lia).
    rewrite Hlt.
    inversion Hall as [|? ? [Ht Hfound] Hall']; subst.
    destruct Hdistinct as [Hab Hdistinct].
    destruct (ShimFacts.record_step_new files a s (Hlast a eq_refl) Ht)
      as (En & Ecell & Eother).
    destruct (file_by_descriptor files (wd a)) as [k|] eqn:Hl; [|congruence].
    destruct (IH (record_step files a s)) as (En' & Ebelow & Ecells & Er & Ed);
      [lia | lia | | exact Hdistinct | exact Hall' |].
    { intros b Hb _. rewrite En.
      replace (n s + 1 - 1) with (n s) by lia. rewrite Ecell. simpl.
      destruct rest as [|b' rest']; [discriminate|].
      inversion Hb; subst. exact Hab. }
    destruct (ShimFacts.record_step_diag files a s) as [Ed0 Er0].
    repeat split.
    + lia.
    + intros j Hj. rewrite Ebelow by lia. apply Eother. lia.
    + intros [|i] iev Hi; simpl in Hi.
      * inversion Hi; subst. rewrite Ebelow by lia.
        replace (n s + Z.of_nat 0) with (n s) by lia.
        rewrite Ecell. unfold event_of. rewrite Hl. reflexivity.
      * replace (n s + Z.of_nat (S i)) with (n (record_step files a s) + Z.of_nat i)
          by lia.
        apply Ecells, Hi.
    + congruence.
    + congruence.
Qed.

(** X4.  When the buffer that one read returns holds only records with a
    flag to report and a registered watch descriptor, none of them for the
    watch descriptor of the record before it, and the caller's buffer has
    room for them all, the call returns one event for each record, in the
    order of the records, each with the translated flags of its record and
    the file registered under its watch descriptor as tag. *)
Theorem one_event_for_each_record (files : list WatchFile)
    (evs : Z -> struct_kevent) (nevents : Z) (first : poll_ret)
    (records : list inotify_event) :
  Z.of_nat (length records) <= nevents ->
  distinct_neighbours records ->
  Forall (reportable_record files) records ->
  batch
    (kevent_wait files evs nevents None first
       [ {| in_ready := true; stdin_ready := false; rd := read_gets records |} ])
  = map (event_of files) records.
Proof.
  intros Hroom Hdistinct Hall.
  unfold kevent_wait. simpl. unfold body. simpl. unfold inotify_part. simpl.
  destruct (read_records_appends files nevents records (count_read (start evs)))
    as (En & _ & Ecells & _); simpl; try assumption; try lia.
  unfold batch. rewrite En. simpl.
  replace (Z.to_nat (0 + Z.of_nat (length records))) with (length records) by lia.
  apply list_eq. intros i.
  rewrite !list_lookup_fmap.
  destruct (records !! i) as [iev|] eqn:Hi; simpl.
  - assert (Hlen : (i < length records)%nat) by (eapply lookup_lt_Some, Hi).
    assert (Hseq : seq 0 (length records) !! i = Some i).
    { apply lookup_seq. split; [reflexivity | exact Hlen]. }
    rewrite Hseq. simpl. f_equal.
    specialize (Ecells i iev Hi). simpl in Ecells. exact Ecells.
  - apply lookup_ge_None in Hi.
    assert (Hseq : seq 0 (length records) !! i = None).
    { apply lookup_ge_None. rewrite length_seq. exact Hi. }
    rewrite Hseq. reflexivity.
Qed.

Lemma one_event_for_each_record_witness :
  let records := [Sample.close_write_a; delete_b; Sample.attrib_a] in
  Z.of_nat (length records) <= 32 /\
  batch
    (kevent_wait Sample.registered Sample.blank 32 None poll_timeout
       [ Sample.inotify_readable records ])
  = [ {| ident := 1; filter := EVFILT_VNODE; flags := 0; fflags := NOTE_WRITE;
         data := 0; udata := Some 0%nat |};
      {| ident := 2; filter := EVFILT_VNODE; flags := 0; fflags := NOTE_DELETE;
         data := 0; udata := Some 1%nat |};
      {| ident := 1; filter := EVFILT_VNODE; flags := 0; fflags := NOTE_ATTRIB;
         data := 0; udata := Some 0%nat |} ].
Proof.
  intros records. split; [simpl; lia|].
  apply (one_event_for_each_record Sample.registered Sample.blank 32
           poll_timeout records).
  - simpl. lia.
  - simpl. repeat split; discriminate.
  - repeat constructor; discriminate.
Defined.

(** ** The registration path *)

Section Changes.
Variable add_watch_ret : nat -> Z.
Variable sizeof_kevent : nat.

Lemma names_insert (fs : list WatchFile) (p : nat) (f : WatchFile) (d : Z) :
  fs !! p = Some f ->
  map fn (<[p := {| fn := fn f; fd := d |}]> fs) = map fn fs.
Proof.
  intros Hp. change (map fn) with (fmap (M := list) fn).
  rewrite list_fmap_insert. simpl. apply list_insert_id.
  rewrite list_lookup_fmap, Hp. reflexivity.
Qed.

(** One change leaves the names alone, and the handles of the records it
    does not point to. *)
Lemma single_change_keeps_names (kev : struct_kevent) (r r' : registry)
    (v : Z) :
  kevent_changes add_watch_ret sizeof_kevent [kev] 1 r = Returned v r' ->
  map fn (files r') = map fn (files r) /\
  forall q, udata kev <> Some q -> files r' !! q = files r !! q.
Proof.
  unfold kevent_changes. simpl. rewrite Nat.mul_0_r. simpl.
  destruct (filter kev =? EVFILT_VNODE); simpl.
  - destruct (has (flags kev) EV_DELETE).
    + destruct (udata kev) as [p|]; [|discriminate].
      destruct (files r !! p) as [f|] eqn:Hp; [|discriminate].
      intros H. inversion H; subst; simpl. split.
      * apply names_insert, Hp.
      * intros q Hq. apply list_lookup_insert_ne. congruence.
    + destruct (has (flags kev) EV_ADD).
      * destruct (udata kev) as [p|]; [|discriminate].
        destruct (files r !! p) as [f|] eqn:Hp; [|discriminate].
        destruct (add_watch_ret (adds r) <? 0);
          intros H; inversion H; subst; simpl; split; auto.
        -- apply names_insert, Hp.
        -- intros q Hq. apply list_lookup_insert_ne. congruence.
      * intros H. inversion H; subst. auto.
  - intros H. inversion H; subst. auto.
Qed.

(** X5.  No sequence of registrations, invalidations and replacements
    renames, adds or drops a record of the registry, and a record that no
    change of the sequence points to keeps its handle. *)
Theorem changes_keep_the_names (history : list struct_kevent)
    (r0 r : registry) :
  run_changes add_watch_ret sizeof_kevent history r0 = Some r ->
  map fn (files r) = map fn (files r0) /\
  length (files r) = length (files r0) /\
  forall q, Forall (fun kev => udata kev <> Some q) history ->
            files r !! q = files r0 !! q.
Proof.
  revert r0. induction history as [|kev rest IH]; intros r0 Hrun; simpl in Hrun.
  - inversion Hrun; subst. auto.
  - destruct (kevent_changes add_watch_ret sizeof_kevent [kev] 1 r0)
      as [v r1|] eqn:Hstep; [|discriminate].
    destruct (single_change_keeps_names kev r0 r1 v Hstep) as [Hnames Hothers].
    destruct (IH r1 Hrun) as (Hnames' & Hlen' & Hothers').
    assert (Hn : map fn (files r) = map fn (files r0)) by congruence.
    split; [exact Hn|]. split.
    + rewrite <- (length_map fn (files r)), Hn. apply length_map.
    + intros q Hq. inversion Hq; subst.
      rewrite Hothers' by assumption. apply Hothers. assumption.
Qed.

(** X6.  When [inotify_add_watch] fails, [kevent] returns -1 at once: the
    record keeps the handle it had, which is not closed, so a lookup of that
    handle finds what it found before. *)
Theorem failed_add_keeps_the_handle (kev : struct_kevent) (r : registry)
    (p : nat) (f : WatchFile) :
  filter kev = EVFILT_VNODE -> has (flags kev) EV_DELETE = false ->
  has (flags kev) EV_ADD = true ->
  udata kev = Some p -> files r !! p = Some f ->
  add_watch_ret (adds r) < 0 ->
  exists r',
    kevent_changes add_watch_ret sizeof_kevent [kev] 1 r = Returned (-1) r' /\
    files r' = files r /\
    calls r' = calls r ++ [inotify_add_watch (fn f) IN_ALL] /\
    forall w, file_by_descriptor (files r') w = file_by_descriptor (files r) w.
Proof.
  intros Hfilter Hdel Hadd Hu Hp Hw.
  unfold kevent_changes. simpl. rewrite Nat.mul_0_r. simpl.
  rewrite Hfilter, Hdel, Hadd, Hu, Hp. simpl.
  apply Z.ltb_lt in Hw. rewrite Hw.
  eexists. split; [reflexivity|]. simpl. auto.
Qed.

(** X7.  A change for a filter other than EVFILT_VNODE is passed over and
    still counted in the returned number of changes; a vnode change with
    neither EV_DELETE nor EV_ADD is counted out of it; a change with both
    flags is a removal.  None of the first two touches the registry or makes
    a call. *)
Theorem changes_that_do_nothing (kev : struct_kevent) (r : registry) :
  (filter kev <> EVFILT_VNODE ->
   kevent_changes add_watch_ret sizeof_kevent [kev] 1 r = Returned 1 r) /\
  (filter kev = EVFILT_VNODE -> has (flags kev) EV_DELETE = false ->
   has (flags kev) EV_ADD = false ->
   kevent_changes add_watch_ret sizeof_kevent [kev] 1 r = Returned 0 r) /\
  (forall p f,
      filter kev = EVFILT_VNODE -> has (flags kev) EV_DELETE = true ->
      has (flags kev) EV_ADD = true ->
      udata kev = Some p -> files r !! p = Some f ->
      exists r',
        kevent_changes add_watch_ret sizeof_kevent [kev] 1 r = Returned 1 r' /\
        files r' !! p = Some {| fn := fn f; fd := -1 |} /\
        calls r' = calls r ++ [inotify_rm_watch (ident kev)] /\
        adds r' = adds r).
Proof.
  unfold kevent_changes. simpl. rewrite Nat.mul_0_r. simpl.
  split; [|split].
  - intros Hfilter. apply Z.eqb_neq in Hfilter. rewrite Hfilter. reflexivity.
  - intros Hfilter Hdel Hadd. rewrite Hfilter, Hdel, Hadd. reflexivity.
  - intros p f Hfilter Hdel Hadd Hu Hp. rewrite Hfilter, Hdel, Hu, Hp. simpl.
    eexists. split; [reflexivity|]. simpl. repeat split.
    apply list_lookup_insert_eq. eapply lookup_lt_Some, Hp.
Qed.

End Changes.

Lemma changes_keep_the_names_witness :
  let r0 := {| files := Sample.registered; adds := 0; calls := [] |} in
  let add := EV_SET 3 EVFILT_VNODE (Z.lor EV_ADD EV_CLEAR) 7 0 (Some 0%nat) in
  let del := EV_SET 9 EVFILT_VNODE EV_DELETE 0 0 (Some 0%nat) in
  exists r,
    run_changes (fun _ => 9) 32 [add; del; add] r0 = Some r /\
    map fn (files r) = ["a.txt"; "b.txt"] /\
    files r !! 1%nat = Some {| fn := "b.txt"; fd := 2 |}.
Proof.
  intros r0 add del.
  eexists. split; [reflexivity|].
  destruct (changes_keep_the_names (fun _ => 9) 32 [add; del; add] r0 _ eq_refl)
    as (Hnames & _ & Hothers).
  split; [exact Hnames|].
  rewrite Hothers; [reflexivity|]. repeat constructor; discriminate.
Defined.

Lemma failed_add_keeps_the_handle_witness :
  let r0 := {| files := Sample.registered; adds := 0; calls := [] |} in
  let add := EV_SET 3 EVFILT_VNODE (Z.lor EV_ADD EV_CLEAR) 7 0 (Some 0%nat) in
  (fun _ : nat => -1) (adds r0) < 0 /\
  exists r',
    kevent_changes (fun _ => -1) 32 [add] 1 r0 = Returned (-1) r' /\
    file_by_descriptor (files r') 1 = Some 0%nat.
Proof.
  intros r0 add. split; [simpl; lia|].
  destruct (failed_add_keeps_the_handle (fun _ => -1) 32 add r0 0
              {| fn := "a.txt"; fd := 1 |})
    as (r' & Hrun & _ & _ & Hlookup);
    [reflexivity | reflexivity | reflexivity | reflexivity | reflexivity
    | simpl; lia |].
  exists r'. split; [exact Hrun|]. rewrite Hlookup. reflexivity.
Defined.

Lemma changes_that_do_nothing_witness :
  let r0 := {| files := Sample.registered; adds := 0; calls := [] |} in
  let stdin := EV_SET 0 EVFILT_READ EV_ADD 0 0 None in
  filter stdin <> EVFILT_VNODE /\
  kevent_changes (fun _ => 9) 32 [stdin] 1 r0 = Returned 1 r0.
Proof.
  intros r0 stdin.
  assert (H : filter stdin <> EVFILT_VNODE) by discriminate.
  split; [exact H|].
  exact (proj1 (changes_that_do_nothing (fun _ => 9) 32 stdin r0) H).
Defined.

(** X8.  The n-th change is addressed as
    [changelist + sizeof(struct kevent)*n] on a pointer to [struct kevent],
    so the second change is read [sizeof(struct kevent)] elements behind the
    first: given an array of two changes, [kevent] never applies the second
    one, it reads behind the array, unless the first change already made it
    return -1. *)
Theorem second_change_is_never_applied (add_watch_ret : nat -> Z)
    (sizeof_kevent : nat) (kev1 kev2 : struct_kevent) (r : registry) :
  (1 < sizeof_kevent)%nat ->
  kevent_changes add_watch_ret sizeof_kevent [kev1; kev2] 2 r = Fault \/
  exists r',
    kevent_changes add_watch_ret sizeof_kevent [kev1; kev2] 2 r
      = Returned (-1) r' /\
    files r' = files r.
Proof.
  intros Hsz.
  assert (Hbehind : forall ignored r1,
            changes_loop add_watch_ret sizeof_kevent [kev1; kev2] 2 1 1
              ignored r1 = Fault).
  { intros ignored r1. simpl. rewrite Nat.mul_1_r.
    destruct sizeof_kevent as [|[|sz]]; [lia | lia | reflexivity]. }
  unfold kevent_changes.
  change (Z.to_nat 2) with 2%nat.
  cbn [changes_loop]. rewrite Nat.mul_0_r. cbn [lookup list_lookup].
  destruct (negb (filter kev1 =? EVFILT_VNODE)); [left; apply Hbehind|].
  destruct (has (flags kev1) EV_DELETE).
  - destruct (udata kev1) as [p|]; [|left; reflexivity].
    destruct (files r !! p); [left; apply Hbehind | left; reflexivity].
  - destruct (has (flags kev1) EV_ADD); [|left; apply Hbehind].
    destruct (udata kev1) as [p|]; [|left; reflexivity].
    destruct (files r !! p); [|left; reflexivity].
    cbv zeta. destruct (add_watch_ret (adds r) <? 0).
    + right. eexists. split; reflexivity.
    + left. apply Hbehind.
Qed.

Lemma second_change_is_never_applied_witness :
  let r0 := {| files := Sample.registered; adds := 0; calls := [] |} in
  let add0 := EV_SET 3 EVFILT_VNODE (Z.lor EV_ADD EV_CLEAR) 7 0 (Some 0%nat) in
  let add1 := EV_SET 4 EVFILT_VNODE (Z.lor EV_ADD EV_CLEAR) 7 0 (Some 1%nat) in
  (1 < 32)%nat /\
  kevent_changes (fun _ => 9) 32 [add0; add1] 2 r0 = Fault.
Proof.
  intros r0 add0 add1.
  assert (Hsz : (1 < 32)%nat) by lia.
  split; [exact Hsz|].
  destruct (second_change_is_never_applied (fun _ => 9) 32 add0 add1 r0 Hsz)
    as [H | (r' & H & _)]; [exact H | discriminate H].
Defined.

End ShimExtraFacts.

(** * More properties of entr.c *)

Module StartupFacts.
Import Event Entr Startup.

(** ** Strings *)

Lemma c_string_app (name rest : list ascii) :
  NUL ∉ name -> c_string (name ++ NUL :: rest) = name.
Proof.
  induction name as [|c name IH]; intros Hnul; simpl; [reflexivity|].
  destruct (Ascii.eqb c NUL) eqn:Hc.
  - apply Ascii.eqb_eq in Hc. subst c. exfalso. apply Hnul. left.
  - rewrite IH; [reflexivity|]. intros H. apply Hnul. right. exact H.
Qed.

Lemma memccpy_length (c : ascii) (n : nat) :
  forall to from, length (memccpy to from c n) = length to.
Proof.
  induction n as [|n IH]; intros to from;
    destruct to as [|t to]; destruct from as [|x from]; simpl; try reflexivity.
  destruct (Ascii.eqb x c); [reflexivity|]. simpl. rewrite IH. reflexivity.
Qed.

(** What [memccpy] copies of a C string into an array of at least [n]
    bytes: the string and its terminator, or its first [n] bytes. *)
Lemma memccpy_c_string (n : nat) :
  forall to name junk,
    NUL ∉ name -> (n <= length to)%nat ->
    memccpy to (name ++ NUL :: junk) NUL n =
      if (length name <? n)%nat
      then name ++ NUL :: drop (S (length name)) to
      else take n name ++ drop n to.
Proof.
  induction n as [|n IH]; intros to name junk Hnul Hlen.
  - simpl. destruct to; reflexivity.
  - destruct to as [|t to]; [simpl in Hlen; lia|].
    destruct name as [|c name]; simpl.
    + reflexivity.
    + destruct (Ascii.eqb c NUL) eqn:Hc.
      { apply Ascii.eqb_eq in Hc. subst c. exfalso. apply Hnul. left. }
      rewrite IH; [| intros H; apply Hnul; right; exact H | simpl in Hlen; lia].
      change (S (length name) <? S n)%nat with (length name <? n)%nat.
      destruct (length name <? n)%nat; reflexivity.
Qed.

(** The array [strlcpy] leaves: the string cut to [l - 1] bytes, and the
    bytes behind the first [l] as they were. *)
Lemma strlcpy_array (to name junk : list ascii) (l : nat) :
  NUL ∉ name -> (0 < l <= length to)%nat ->
  c_string (fst (strlcpy to (name ++ NUL :: junk) l)) = take (l - 1) name /\
  drop l (fst (strlcpy to (name ++ NUL :: junk) l)) = drop l to.
Proof.
  intros Hnul [Hpos Hlen]. destruct l as [|l]; [lia|].
  unfold strlcpy. cbn [fst snd].
  replace (S l - 1)%nat with l by lia.
  rewrite (memccpy_c_string (S l) to name junk Hnul Hlen).
  destruct (length name <? S l)%nat eqn:Hshort.
  - apply Nat.ltb_lt in Hshort. split.
    + rewrite insert_app_r_alt by lia. rewrite take_ge by lia.
      destruct (l - length name)%nat; simpl; apply c_string_app, Hnul.
    + rewrite drop_insert_lt by lia.
      change (name ++ NUL :: drop (S (length name)) to)
        with (name ++ [NUL] ++ drop (S (length name)) to).
      rewrite app_assoc, drop_app_ge by (rewrite length_app; simpl; lia).
      rewrite length_app, drop_drop. simpl. f_equal. lia.
  - apply Nat.ltb_ge in Hshort. split.
    + rewrite insert_app_l by (rewrite length_take; lia).
      replace (S l) with (l + 1)%nat by lia.
      rewrite <- (take_take_drop name l 1).
      rewrite insert_app_r_alt by (rewrite length_take; lia).
      rewrite length_take.
      replace (l - l `min` length name)%nat with 0%nat by lia.
      destruct (drop l name) as [|c rest] eqn:Hdrop.
      { exfalso.
        assert (H : length (drop l name) = 0%nat) by (rewrite Hdrop; reflexivity).
        rewrite length_drop in H. lia. }
      simpl. rewrite <- app_assoc. simpl. apply c_string_app.
      intros H. apply Hnul. rewrite <- (take_drop l name).
      apply elem_of_app. left. exact H.
    + rewrite drop_insert_lt by lia.
      rewrite drop_app_ge by (rewrite length_take; lia).
      rewrite length_take, drop_drop. f_equal. lia.
Qed.

(** X9.  [strlcpy] leaves in [to] the C string of [from] cut to [l - 1]
    bytes and terminated, writes within the [l] bytes of [to], and returns
    [l - 1] whatever the length of the string. *)
Theorem strlcpy_copies_and_terminates (to name junk : list ascii) (l : nat) :
  NUL ∉ name -> (0 < l <= length to)%nat ->
  let r := strlcpy to (name ++ NUL :: junk) l in
  c_string (fst r) = take (l - 1) name /\
  length (fst r) = length to /\
  drop l (fst r) = drop l to /\
  snd r = Z.of_nat l - 1.
Proof.
  intros Hnul Hl r.
  destruct (strlcpy_array to name junk l Hnul Hl) as (Hc & Hd).
  split; [exact Hc|]. split; [|split; [exact Hd|]].
  - unfold r, strlcpy. destruct l as [|l]; [lia|].
    cbn [fst]. rewrite length_insert, memccpy_length. reflexivity.
  - unfold r, strlcpy. destruct l as [|l]; [lia|]. reflexivity.
Qed.

Lemma strlcpy_copies_and_terminates_witness :
  let to := replicate 4 "x"%char in
  let name := String.list_ascii_of_string "a.txt" in
  (NUL ∉ name) /\ (0 < 4 <= length to)%nat /\
  c_string (fst (strlcpy to (name ++ [NUL]) 4))
    = String.list_ascii_of_string "a.t" /\
  snd (strlcpy to (name ++ [NUL]) 4) = 3.
Proof.
  intros to name.
  assert (Hnul : NUL ∉ name).
  { intros H. repeat (apply elem_of_cons in H; destruct H as [H|H];
                      [discriminate H|]).
    apply elem_of_nil in H. exact H. }
  assert (Hlen : (0 < 4 <= length to)%nat) by (simpl; lia).
  split; [exact Hnul|]. split; [exact Hlen|].
  destruct (strlcpy_copies_and_terminates to name [] 4 Hnul Hlen)
    as (Hc & _ & _ & Hr).
  split; [exact Hc | exact Hr].
Defined.

(** ** [process_input] *)

Lemma fgets_line (name rest : list ascii) :
  forall k,
    LF ∉ name -> (length name < k)%nat ->
    fgets k (name ++ LF :: rest) = (name ++ [LF], rest).
Proof.
  induction name as [|c name IH]; intros k Hlf Hk;
    (destruct k as [|k]; [simpl in Hk; lia|]); simpl.
  - reflexivity.
  - destruct (Ascii.eqb c LF) eqn:Hc.
    { apply Ascii.eqb_eq in Hc. subst c. exfalso. apply Hlf. left. }
    rewrite IH; [reflexivity | | simpl in Hk; lia].
    intros H. apply Hlf. right. exact H.
Qed.

Section ProcessInput.
Variable PATH_MAX : nat.
Variable heap : nat -> list ascii.
Hypothesis heap_blocks : forall k, (PATH_MAX <= length (heap k))%nat.

(** One pass of the loop over a line that carries a plain name. *)
Lemma read_lines_step (fuel : nat) (name rest buf : list ascii)
    (max_files : Z) (line : nat) (files : list (list ascii)) :
  plain_name PATH_MAX name -> length buf = PATH_MAX ->
  exists block buf',
    c_string block = name /\ length buf' = PATH_MAX /\
    read_lines PATH_MAX heap (S fuel) (name ++ LF :: rest) buf max_files
      line files =
    if Z.of_nat (S line) >=? max_files then (files ++ [block], S line)
    else read_lines PATH_MAX heap fuel rest buf' max_files (S line)
           (files ++ [block]).
Proof.
  intros (Hnul & Hlf & Hroom) Hbuf.
  cbn [read_lines].
  rewrite (fgets_line name rest (PATH_MAX - 1) Hlf) by lia.
  set (chars := name ++ [LF]).
  set (buf1 := chars ++ NUL :: drop (S (length chars)) buf).
  assert (Hchars : length chars = S (length name)).
  { unfold chars. rewrite length_app. simpl. lia. }
  assert (Hlen1 : length buf1 = PATH_MAX).
  { unfold buf1. rewrite length_app. simpl. rewrite length_drop. lia. }
  assert (Hnul' : NUL ∉ chars).
  { unfold chars. intros H. apply elem_of_app in H. destruct H as [H|H].
    - exact (Hnul H).
    - apply list_elem_of_singleton in H. discriminate H. }
  assert (Hstr : c_string buf1 = chars) by (apply c_string_app, Hnul').
  assert (Hfirst : Ascii.eqb (byte_at 0 buf1) NUL = false).
  { apply Ascii.eqb_neq. unfold buf1, chars, byte_at.
    destruct name as [|c name']; simpl; [discriminate|].
    intros ->. apply Hnul. left. }
  assert (Hlast : byte_at (length chars - 1) buf1 = LF).
  { unfold byte_at, buf1. rewrite Hchars.
    replace (S (length name) - 1)%nat with (length name) by lia.
    unfold chars. rewrite <- !app_assoc. simpl.
    rewrite app_nth2 by lia. rewrite Nat.sub_diag. reflexivity. }
  assert (Hcut : <[(length chars - 1)%nat := NUL]> buf1 =
                 name ++ NUL :: NUL :: drop (S (length chars)) buf).
  { unfold buf1. rewrite Hchars.
    replace (S (length name) - 1)%nat with (length name) by lia.
    unfold chars. rewrite <- !app_assoc. simpl.
    rewrite insert_app_r_alt by lia. rewrite Nat.sub_diag. reflexivity. }
  destruct chars as [|c0 chars0] eqn:Echars; [simpl in Hchars; lia|].
  rewrite <- Echars in *. fold buf1.
  rewrite Hfirst, Hstr, Hlast. simpl Ascii.eqb. cbv iota.
  rewrite Hcut.
  set (buf2 := name ++ NUL :: NUL :: drop (S (length chars)) buf).
  destruct (strlcpy_array (heap line) name
              (NUL :: drop (S (length chars)) buf) PATH_MAX Hnul)
    as (Hc & _); [split; [lia | apply heap_blocks]|].
  exists (fst (strlcpy (heap line) buf2 PATH_MAX)), buf2.
  split; [|split].
  - unfold buf2. rewrite Hc. apply take_ge. lia.
  - unfold buf2. rewrite length_app. simpl. rewrite length_drop. lia.
  - reflexivity.
Qed.

Lemma read_lines_names (max_files : Z) (names : list (list ascii)) :
  forall fuel buf line files,
    (length names <= fuel)%nat -> length buf = PATH_MAX ->
    Forall (plain_name PATH_MAX) names ->
    Z.of_nat line < max_files ->
    exists added,
      read_lines PATH_MAX heap fuel (unlines names) buf max_files line files
        = (files ++ added, (line + length added)%nat) /\
      map c_string added =
        take (Z.to_nat (max_files - Z.of_nat line)) names.
Proof.
  induction names as [|name names IH]; intros fuel buf line files Hfuel Hbuf
    Hall Hroom.
  - exists []. rewrite app_nil_r, Nat.add_0_r, take_nil.
    split; [|reflexivity]. destruct fuel; [reflexivity|].
    change (unlines []) with (@nil ascii). cbn [read_lines].
    destruct (PATH_MAX - 1)%nat; reflexivity.
  - destruct fuel as [|fuel]; [simpl in Hfuel; lia|].
    apply Forall_cons in Hall. destruct Hall as [Hname Hall'].
    change (unlines (name :: names)) with ((name ++ [LF]) ++ unlines names).
    rewrite <- app_assoc. simpl app.
    destruct (read_lines_step fuel name (unlines names) buf max_files line
                files Hname Hbuf) as (block & buf' & Hblock & Hbuf' & ->).
    destruct (Z.of_nat (S line) >=? max_files) eqn:Hfull;
      rewrite Z.geb_leb in Hfull;
      [apply Z.leb_le in Hfull | apply Z.leb_gt in Hfull].
    + exists [block]. simpl. split; [f_equal; lia|].
      rewrite Hblock.
      assert (Hone : Z.to_nat (max_files - Z.of_nat line) = 1%nat) by lia.
      rewrite Hone. destruct names; reflexivity.
    + destruct (IH fuel buf' (S line) (files ++ [block]))
        as (added & -> & Hnames); [simpl in Hfuel; lia | exact Hbuf'
                                   | exact Hall' | lia |].
      exists (block :: added). split.
      * rewrite <- app_assoc. simpl. f_equal. lia.
      * simpl. rewrite Hblock, Hnames.
        replace (Z.to_nat (max_files - Z.of_nat line))
          with (S (Z.to_nat (max_files - Z.of_nat (S line)))) by lia.
        reflexivity.
Qed.

Lemma unlines_length (names : list (list ascii)) :
  (length names <= length (unlines names))%nat.
Proof.
  induction names as [|name names IH]; simpl; [lia|].
  unfold unlines in *. simpl. rewrite !length_app. simpl. lia.
Qed.

Lemma process_input_names (names : list (list ascii)) (buf : list ascii)
    (max_files : Z) :
  Forall (plain_name PATH_MAX) names -> length buf = PATH_MAX ->
  1 <= max_files ->
  map c_string (fst (process_input PATH_MAX heap (unlines names) buf max_files))
    = take (Z.to_nat max_files) names /\
  snd (process_input PATH_MAX heap (unlines names) buf max_files)
    = length (fst (process_input PATH_MAX heap (unlines names) buf max_files)).
Proof.
  intros Hall Hbuf Hmax. unfold process_input.
  destruct (read_lines_names max_files names (length (unlines names)) buf 0 [])
    as (added & -> & Hnames);
    [apply unlines_length | exact Hbuf | exact Hall | lia |].
  simpl. split; [|reflexivity].
  rewrite Hnames. f_equal. lia.
Qed.

(** X10.  From an input of lines that carry plain names (no NUL, at most
    [PATH_MAX - 2] characters, a newline after each), [process_input] stores
    the names in the order of the lines, without the newlines, up to
    [max_files] of them, and returns how many it stored.  A line that is
    empty is a name too, the empty one. *)
Theorem process_input_stores_the_names (names : list (list ascii))
    (buf : list ascii) (max_files : Z) :
  Forall (plain_name PATH_MAX) names -> length buf = PATH_MAX ->
  1 <= max_files ->
  let r := process_input PATH_MAX heap (unlines names) buf max_files in
  map c_string (fst r) = take (Z.to_nat max_files) names /\
  snd r = length (fst r).
Proof.
  intros Hall Hbuf Hmax r. exact (process_input_names names buf max_files Hall Hbuf Hmax).
Qed.

(** What the loop keeps whatever it reads: a name in every slot it counts,
    and a count that passes [max_files] by no more than the one name stored
    before the test. *)
Lemma read_lines_count (max_files : Z) :
  forall fuel stream buf line files,
    length files = line ->
    let r := read_lines PATH_MAX heap fuel stream buf max_files line files in
    length (fst r) = snd r /\
    Z.of_nat (snd r) <= Z.max max_files (Z.of_nat line + 1) /\
    (line <= snd r)%nat /\ take line (fst r) = files.
Proof.
  induction fuel as [|fuel IH]; intros stream buf line files Hline; simpl.
  - rewrite take_ge by lia. repeat split; auto; lia.
  - destruct (fgets (PATH_MAX - 1) stream) as [[|c chars] others].
    + simpl. rewrite take_ge by lia. repeat split; auto; lia.
    + set (buf1 := (c :: chars) ++ NUL :: drop (S (length (c :: chars))) buf).
      destruct (Ascii.eqb (byte_at 0 buf1) NUL); [apply IH, Hline|].
      set (buf2 := if Ascii.eqb _ LF then _ else buf1).
      set (files' := files ++ [_]).
      assert (Hlen' : length files' = S line).
      { unfold files'. rewrite length_app. simpl. lia. }
      assert (Htake : take line files' = files).
      { unfold files'. rewrite take_app_le by lia. apply take_ge. lia. }
      destruct (Z.of_nat (S line) >=? max_files) eqn:Hfull;
        rewrite Z.geb_leb in Hfull;
        [apply Z.leb_le in Hfull | apply Z.leb_gt in Hfull].
      * simpl. repeat split; [exact Hlen' | lia | lia | exact Htake].
      * destruct (IH others buf2 (S line) files' Hlen') as (H1 & H2 & H3 & H4).
        repeat split; [exact H1 | lia | lia |].
        set (got := fst (read_lines PATH_MAX heap fuel others buf2 max_files
                           (S line) files')) in *.
        transitivity (take line (take (S line) got)).
        { rewrite take_take. f_equal. lia. }
        rewrite H4. exact Htake.
Qed.

(** X11.  Whatever the input, [process_input] returns the number of names
    it stored, and stores no more than [max_files] of them, or one when
    [max_files] is below 1: the first name is stored before the count is
    compared with [max_files]. *)
Theorem process_input_count_is_bounded (stream buf : list ascii)
    (max_files : Z) :
  let r := process_input PATH_MAX heap stream buf max_files in
  length (fst r) = snd r /\ Z.of_nat (snd r) <= Z.max max_files 1.
Proof.
  intros r. unfold r, process_input.
  destruct (read_lines_count max_files (length stream) stream buf 0 [] eq_refl)
    as (H1 & H2 & _). split; [exact H1 | exact H2].
Qed.

End ProcessInput.

Lemma not_in_text (c : ascii) (text : string) :
  forallb (fun x => negb (Ascii.eqb x c)) (String.list_ascii_of_string text)
    = true ->
  c ∉ String.list_ascii_of_string text.
Proof.
  induction (String.list_ascii_of_string text) as [|x l IH]; simpl;
    intros Hall Hin.
  - apply elem_of_nil in Hin. exact Hin.
  - apply andb_prop in Hall. destruct Hall as [Hx Hl].
    apply elem_of_cons in Hin. destruct Hin as [->|Hin].
    + rewrite Ascii.eqb_refl in Hx. discriminate Hx.
    + exact (IH Hl Hin).
Qed.

Lemma plain_name_text (PATH_MAX : nat) (text : string) :
  forallb (fun x => negb (Ascii.eqb x NUL)) (String.list_ascii_of_string text)
    = true ->
  forallb (fun x => negb (Ascii.eqb x LF)) (String.list_ascii_of_string text)
    = true ->
  (length (String.list_ascii_of_string text) + 2 <= PATH_MAX)%nat ->
  plain_name PATH_MAX (String.list_ascii_of_string text).
Proof.
  intros Hnul Hlf Hlen. split; [|split].
  - apply not_in_text, Hnul.
  - apply not_in_text, Hlf.
  - exact Hlen.
Qed.

Lemma process_input_stores_the_names_witness :
  let PATH_MAX := 8%nat in
  let heap := fun _ : nat => replicate 8 "x"%char in
  let names := map String.list_ascii_of_string ["a.txt"; ""; "b.c"] in
  let r := process_input PATH_MAX heap (unlines names)
             (replicate 8 "?"%char) 2 in
  Forall (plain_name PATH_MAX) names /\
  map c_string (fst r) = map String.list_ascii_of_string ["a.txt"; ""] /\
  snd r = 2%nat.
Proof.
  intros PATH_MAX heap names r.
  assert (Hall : Forall (plain_name PATH_MAX) names).
  { repeat apply Forall_cons_2; [..|apply Forall_nil_2];
      (apply plain_name_text; [reflexivity | reflexivity | simpl; lia]). }
  split; [exact Hall|].
  destruct (process_input_stores_the_names PATH_MAX heap
              (fun _ => Nat.le_refl 8) names (replicate 8 "?"%char) 2
              Hall eq_refl ltac:(lia)) as (Hnames & Hcount).
  split; [exact Hnames|].
  fold r in Hnames. change (snd r = length (fst r)) in Hcount.
  rewrite Hcount, <- (length_map c_string), Hnames. reflexivity.
Defined.

End StartupFacts.

(** * More properties of the loop of entr.c *)

Module LoopFacts.
Import Event Entr Startup.

Lemma append_assoc (a b c : string) : (a +:+ b) +:+ c = a +:+ (b +:+ c).
Proof.
  induction a as [|x a IH]; [reflexivity|].
  change (String x ((a +:+ b) +:+ c) = String x (a +:+ (b +:+ c))).
  f_equal. exact IH.
Qed.

Lemma append_nil_r (a : string) : a +:+ EmptyString = a.
Proof.
  induction a as [|x a IH]; [reflexivity|].
  change (String x (a +:+ EmptyString) = String x a).
  f_equal. exact IH.
Qed.

Lemma written_app (d : Z) (tr1 tr2 : list action) :
  written d (tr1 ++ tr2) = written d tr1 +:+ written d tr2.
Proof.
  induction tr1 as [|a tr1 IH]; simpl; [reflexivity|].
  destruct a; try exact IH.
  destruct (d0 =? d); [|exact IH].
  change (bytes +:+ written d (tr1 ++ tr2) =
          (bytes +:+ written d tr1) +:+ written d tr2).
  rewrite IH, append_assoc. reflexivity.
Qed.

Lemma flushes_app (tr1 tr2 : list action) :
  flushes (tr1 ++ tr2) = (flushes tr1 + flushes tr2)%nat.
Proof. unfold flushes. rewrite List.filter_app, length_app. reflexivity. Qed.

Section Loop.
Variable E : env.
Variable C : config.

(** An event without NOTE_DELETE, NOTE_WRITE and NOTE_EXTEND is passed
    over, whatever its tag. *)
Lemma dispatch_passes_over (i : nat) (ev : struct_kevent) (p : proc) :
  evList p !! i = Some ev -> qualifies ev = false ->
  dispatch E C i p = Ret tt p.
Proof.
  intros Hev Hq. unfold dispatch, bind, event_at. rewrite Hev.
  unfold qualifies in Hq.
  destruct (has (fflags ev) NOTE_DELETE); [discriminate|].
  simpl in Hq |- *. rewrite Hq. reflexivity.
Qed.

Lemma for_events_passes_over (batch : list struct_kevent) :
  forall pre rest p,
    evList p = pre ++ batch ++ rest ->
    Forall (fun ev => qualifies ev = false) batch ->
    for_events E C (length batch) (length pre) p = Ret tt p.
Proof.
  induction batch as [|ev batch IH]; intros pre rest p HevList Hall; simpl;
    [reflexivity|].
  apply Forall_cons in Hall. destruct Hall as [Hq Hall].
  assert (Hev : evList p !! length pre = Some ev).
  { rewrite HevList. apply list_lookup_middle. reflexivity. }
  rewrite (EntrFacts.bind_Ret _ _ _ _ _ (dispatch_passes_over _ ev p Hev Hq)).
  replace (S (length pre)) with (length (pre ++ [ev]))
    by (rewrite length_app; simpl; lia).
  apply (IH (pre ++ [ev]) rest); [|exact Hall].
  rewrite HevList, <- app_assoc. reflexivity.
Qed.

(** What the blocking [kevent] of a pass leaves when it hands over
    [batch]. *)
Lemma wait_hands_over (batch : list struct_kevent) (p : proc) :
  kevent_ret_of E (n_kevent p) = kevent_gets batch ->
  (length batch <= 32)%nat ->
  sys_kevent E [] 32 None p =
    Ret (Z.of_nat (length batch))
      {| files := files p; errno := errno p;
         evList := batch ++ drop (length batch) (evList p);
         n_open := n_open p; n_close := n_close p;
         n_kevent := S (n_kevent p);
         trace := trace p ++ [a_kevent [] 32 None] |}.
Proof.
  intros Hret Hlen. unfold sys_kevent. rewrite Hret.
  rewrite take_ge by exact Hlen. reflexivity.
Qed.

Lemma pass_after_wait (batch : list struct_kevent) (p : proc) :
  kevent_ret_of E (n_kevent p) = kevent_gets batch ->
  (length batch <= 32)%nat ->
  pass E C p =
    for_events E C (length batch) 0
      {| files := files p; errno := errno p;
         evList := batch ++ drop (length batch) (evList p);
         n_open := n_open p; n_close := n_close p;
         n_kevent := S (n_kevent p);
         trace := trace p ++ [a_kevent [] 32 None] |}.
Proof.
  intros Hret Hlen. unfold pass.
  rewrite (EntrFacts.bind_Ret _ _ _ _ _ (wait_hands_over batch p Hret Hlen)).
  assert (Hnev : (Z.of_nat (length batch) =? -1) = false)
    by (apply Z.eqb_neq; lia).
  rewrite Hnev. unfold bind at 1. unfold ret at 1.
  rewrite Nat2Z.id. reflexivity.
Qed.

(** X12.  A batch in which no event has NOTE_DELETE, NOTE_WRITE or
    NOTE_EXTEND makes the pass do nothing after the wait, in either mode and
    whatever the tags: no command, no write, no call, no record touched.
    The stdin event of the shim, whose tag is NULL, is such an event. *)
Theorem pass_over_other_events (batch : list struct_kevent) (p : proc) :
  kevent_ret_of E (n_kevent p) = kevent_gets batch ->
  (length batch <= 32)%nat ->
  Forall (fun ev => qualifies ev = false) batch ->
  exists p',
    pass E C p = Ret tt p' /\
    trace p' = trace p ++ [a_kevent [] 32 None] /\
    files p' = files p /\ n_open p' = n_open p /\ n_close p' = n_close p /\
    n_kevent p' = S (n_kevent p) /\
    qualifies Shim.stdin_event = false.
Proof.
  intros Hret Hlen Hall. rewrite (pass_after_wait batch p Hret Hlen).
  eexists. split.
  - apply (for_events_passes_over batch [] (drop (length batch) (evList p)));
      [reflexivity | exact Hall].
  - simpl. repeat split.
Qed.

(** *** FIFO mode *)

Lemma dispatch_fifo_line (i : nat) (ev : struct_kevent) (p : proc) :
  fd (fifo C) <> 0 ->
  evList p !! i = Some ev -> has (fflags ev) NOTE_DELETE = false ->
  qualifies ev = true -> tagged (files p) ev ->
  exists p',
    dispatch E C i p = Ret tt p' /\
    trace p' = trace p ++ fifo_line (fd (fifo C)) (files p) ev /\
    files p' = files p /\ evList p' = evList p /\ n_kevent p' = n_kevent p.
Proof.
  intros Hfifo Hev Hdel Hq (j & f & Hu & Hf).
  destruct (EntrFacts.deliver_fifo E C j f p Hfifo Hf)
    as (p' & Hrun & Htrace & Hrest).
  exists p'. split; [|split; [|exact Hrest]].
  - unfold dispatch, bind, event_at. rewrite Hev, Hdel.
    unfold qualifies in Hq. rewrite Hdel in Hq. simpl in Hq |- *.
    rewrite Hq, Hu. exact Hrun.
  - unfold fifo_line. rewrite Hu, Hf. exact Htrace.
Qed.

Lemma written_fifo_line (d : Z) (files : list watch_file_t)
    (ev : struct_kevent) :
  tagged files ev ->
  written d (fifo_line d files ev) = fifo_bytes files ev /\
  flushes (fifo_line d files ev) = 1%nat /\
  invocations (fifo_line d files ev) = 0%nat.
Proof.
  intros (j & f & Hu & Hf). unfold fifo_line, fifo_bytes. rewrite Hu, Hf.
  split; [|split; reflexivity].
  simpl. rewrite Z.eqb_refl, append_nil_r. reflexivity.
Qed.

Lemma for_events_fifo (batch : list struct_kevent) :
  forall pre rest p,
    fd (fifo C) <> 0 ->
    evList p = pre ++ batch ++ rest ->
    Forall (fun ev => has (fflags ev) NOTE_DELETE = false /\
                      (qualifies ev = true -> tagged (files p) ev)) batch ->
    exists p',
      for_events E C (length batch) (length pre) p = Ret tt p' /\
      trace p' =
        trace p ++
        concat (map (fifo_line (fd (fifo C)) (files p))
                  (List.filter qualifies batch)) /\
      files p' = files p /\ n_kevent p' = n_kevent p.
Proof.
  induction batch as [|ev batch IH]; intros pre rest p Hfifo HevList Hall.
  - exists p. simpl. rewrite app_nil_r. auto.
  - apply Forall_cons in Hall. destruct Hall as [[Hdel Htag] Hall].
    assert (Hev : evList p !! length pre = Some ev).
    { rewrite HevList. apply list_lookup_middle. reflexivity. }
    assert (Hnext : forall p1,
              evList p1 = evList p ->
              evList p1 = (pre ++ [ev]) ++ batch ++ rest).
    { intros p1 ->. rewrite HevList, <- app_assoc. reflexivity. }
    assert (Hlen : S (length pre) = length (pre ++ [ev]))
      by (rewrite length_app; simpl; lia).
    cbn [length for_events List.filter].
    destruct (qualifies ev) eqn:Hq.
    + destruct (dispatch_fifo_line (length pre) ev p Hfifo Hev Hdel Hq
                  (Htag eq_refl))
        as (p1 & Hrun & Htrace & Hfiles & HevList1 & Hkev).
      rewrite (EntrFacts.bind_Ret _ _ _ _ _ Hrun), Hlen.
      destruct (IH (pre ++ [ev]) rest p1 Hfifo (Hnext p1 HevList1))
        as (p' & Hrun' & Htrace' & Hfiles' & Hkev').
      { rewrite Hfiles. exact Hall. }
      exists p'. split; [exact Hrun'|]. split; [|split; congruence].
      rewrite Htrace', Htrace, Hfiles, <- app_assoc. reflexivity.
    + rewrite (EntrFacts.bind_Ret _ _ _ _ _
                 (dispatch_passes_over (length pre) ev p Hev Hq)), Hlen.
      exact (IH (pre ++ [ev]) rest p Hfifo (Hnext p eq_refl) Hall).
Qed.

Lemma written_fifo_lines (d : Z) (files : list watch_file_t)
    (evs : list struct_kevent) :
  Forall (tagged files) evs ->
  written d (concat (map (fifo_line d files) evs))
    = concat_strings (map (fifo_bytes files) evs) /\
  flushes (concat (map (fifo_line d files) evs)) = length evs /\
  invocations (concat (map (fifo_line d files) evs)) = 0%nat.
Proof.
  induction evs as [|ev evs IH]; intros Hall; [repeat split|].
  apply Forall_cons in Hall. destruct Hall as [Htag Hall].
  destruct (IH Hall) as (Hw & Hf & Hi).
  destruct (written_fifo_line d files ev Htag) as (Hw1 & Hf1 & Hi1).
  cbn [map concat concat_strings length].
  rewrite written_app, flushes_app, EntrFacts.invocations_app.
  rewrite Hw, Hf, Hi, Hw1, Hf1, Hi1. repeat split.
Qed.

(** X13.  In FIFO mode, for a batch without NOTE_DELETE the pass writes to
    the FIFO, for each event with NOTE_WRITE or NOTE_EXTEND and in the order
    of the batch, the name of the file the event is tagged with, a newline
    and a NUL byte, and flushes after each; it does nothing for the other
    events, never runs the command, makes no second [kevent] call and leaves
    the records as they are. *)
Theorem fifo_pass_writes_a_line_per_change (batch : list struct_kevent)
    (p : proc) :
  fd (fifo C) <> 0 ->
  kevent_ret_of E (n_kevent p) = kevent_gets batch ->
  (length batch <= 32)%nat ->
  Forall (fun ev => has (fflags ev) NOTE_DELETE = false /\
                    (qualifies ev = true -> tagged (files p) ev)) batch ->
  exists p',
    pass E C p = Ret tt p' /\
    trace p' =
      trace p ++ a_kevent [] 32 None ::
      concat (map (fifo_line (fd (fifo C)) (files p))
                (List.filter qualifies batch)) /\
    written (fd (fifo C)) (trace p') =
      written (fd (fifo C)) (trace p) +:+
      concat_strings (map (fifo_bytes (files p)) (List.filter qualifies batch)) /\
    flushes (trace p') =
      (flushes (trace p) + length (List.filter qualifies batch))%nat /\
    invocations (trace p') = invocations (trace p) /\
    files p' = files p /\ n_kevent p' = S (n_kevent p).
Proof.
  intros Hfifo Hret Hlen Hall. rewrite (pass_after_wait batch p Hret Hlen).
  set (p0 := {| files := files p; errno := errno p;
                evList := batch ++ drop (length batch) (evList p);
                n_open := n_open p; n_close := n_close p;
                n_kevent := S (n_kevent p);
                trace := trace p ++ [a_kevent [] 32 None] |}).
  destruct (for_events_fifo batch [] (drop (length batch) (evList p)) p0
              Hfifo eq_refl Hall) as (p' & Hrun & Htrace & Hfiles & Hkev).
  assert (Htagged : Forall (tagged (files p)) (List.filter qualifies batch)).
  { clear -Hall. induction Hall as [|ev evs [_ Htag] _ IH]; simpl;
      [constructor|].
    destruct (qualifies ev) eqn:Hq; [constructor; auto | exact IH]. }
  destruct (written_fifo_lines (fd (fifo C)) (files p) _ Htagged)
    as (Hw & Hf & Hi).
  exists p'. split; [exact Hrun|].
  assert (Htr : trace p' =
            trace p ++ a_kevent [] 32 None ::
            concat (map (fifo_line (fd (fifo C)) (files p))
                      (List.filter qualifies batch))).
  { rewrite Htrace. simpl. rewrite <- app_assoc. reflexivity. }
  split; [exact Htr|].
  change (trace p ++ a_kevent [] 32 None :: ?l)
    with (trace p ++ [a_kevent [] 32 None] ++ l) in Htr.
  rewrite Htr, !written_app, !flushes_app, !EntrFacts.invocations_app.
  rewrite Hw, Hf, Hi.
  change (written (fd (fifo C)) [a_kevent [] 32 None]) with EmptyString.
  change (flushes [a_kevent [] 32 None]) with 0%nat.
  change (invocations [a_kevent [] 32 None]) with 0%nat.
  split; [reflexivity|]. split; [lia|]. split; [lia|].
  split; [exact Hfiles | exact Hkev].
Qed.

(** *** Command mode *)

Lemma dispatch_command_run (i : nat) (ev : struct_kevent) (p : proc) :
  fd (fifo C) = 0 -> kevent_ret_of E (n_kevent p) = kevent_gets [] ->
  evList p !! i = Some ev -> has (fflags ev) NOTE_DELETE = false ->
  qualifies ev = true ->
  dispatch E C i p =
    Ret tt
      {| files := files p; errno := errno p; evList := evList p;
         n_open := n_open p; n_close := n_close p;
         n_kevent := S (n_kevent p);
         trace := trace p ++ command_run (argv C) |}.
Proof.
  intros Hfifo Hquiet Hev Hdel Hq.
  unfold dispatch, bind, event_at. rewrite Hev, Hdel.
  unfold qualifies in Hq. rewrite Hdel in Hq. simpl in Hq |- *. rewrite Hq.
  unfold deliver. rewrite Hfifo. simpl.
  unfold bind, run_script, sys_kevent. simpl. rewrite Hquiet.
  unfold command_run. simpl. rewrite <- app_assoc. reflexivity.
Qed.

Lemma for_events_command (batch : list struct_kevent) :
  forall pre rest p,
    fd (fifo C) = 0 ->
    (forall m, kevent_ret_of E (n_kevent p + m) = kevent_gets []) ->
    evList p = pre ++ batch ++ rest ->
    Forall (fun ev => has (fflags ev) NOTE_DELETE = false) batch ->
    exists p',
      for_events E C (length batch) (length pre) p = Ret tt p' /\
      trace p' =
        trace p ++
        concat (replicate (length (List.filter qualifies batch))
                  (command_run (argv C))) /\
      files p' = files p /\ n_open p' = n_open p /\ n_close p' = n_close p /\
      n_kevent p' = (n_kevent p + length (List.filter qualifies batch))%nat.
Proof.
  induction batch as [|ev batch IH]; intros pre rest p Hfifo Hquiet HevList Hall.
  - exists p. simpl. rewrite app_nil_r, Nat.add_0_r. auto 6.
  - apply Forall_cons in Hall. destruct Hall as [Hdel Hall].
    assert (Hev : evList p !! length pre = Some ev).
    { rewrite HevList. apply list_lookup_middle. reflexivity. }
    assert (Hnext : evList p = (pre ++ [ev]) ++ batch ++ rest).
    { rewrite HevList, <- app_assoc. reflexivity. }
    assert (Hlen : S (length pre) = length (pre ++ [ev]))
      by (rewrite length_app; simpl; lia).
    cbn [length for_events List.filter].
    destruct (qualifies ev) eqn:Hq.
    + pose proof (Hquiet 0%nat) as H0. rewrite Nat.add_0_r in H0.
      rewrite (EntrFacts.bind_Ret _ _ _ _ _
                 (dispatch_command_run (length pre) ev p Hfifo H0 Hev Hdel Hq)),
        Hlen.
      set (p1 := {| files := files p; errno := errno p; evList := evList p;
                    n_open := n_open p; n_close := n_close p;
                    n_kevent := S (n_kevent p);
                    trace := trace p ++ command_run (argv C) |}).
      destruct (IH (pre ++ [ev]) rest p1 Hfifo)
        as (p' & Hrun' & Htrace' & Hfiles' & Hopen' & Hclose' & Hkev');
        [ intros m; simpl; rewrite <- Nat.add_succ_r; apply Hquiet
        | exact Hnext | exact Hall | ].
      exists p'. split; [exact Hrun'|]. simpl in *.
      repeat split; try assumption; [|lia].
      rewrite Htrace', <- app_assoc. reflexivity.
    + rewrite (EntrFacts.bind_Ret _ _ _ _ _
                 (dispatch_passes_over (length pre) ev p Hev Hq)), Hlen.
      exact (IH (pre ++ [ev]) rest p Hfifo Hquiet Hnext Hall).
Qed.

Lemma invocations_command_runs (k : nat) (argv : list string) :
  invocations (concat (replicate k (command_run argv))) = k.
Proof.
  induction k as [|k IH]; [reflexivity|].
  cbn [replicate concat]. rewrite EntrFacts.invocations_app, IH. reflexivity.
Qed.

(** X14.  In command mode, with nothing more queued when the loop reads the
    queue after the command, a batch without NOTE_DELETE makes the pass run
    the command once for every event of the batch that has NOTE_WRITE or
    NOTE_EXTEND, each run followed by the read with the 100ns timeout, whether
    or not the events are for the same file and whatever they are tagged
    with; the records are left as they are. *)
Theorem command_pass_runs_once_per_event (batch : list struct_kevent)
    (p : proc) :
  fd (fifo C) = 0 ->
  kevent_ret_of E (n_kevent p) = kevent_gets batch ->
  (forall m, kevent_ret_of E (S (n_kevent p) + m) = kevent_gets []) ->
  (length batch <= 32)%nat ->
  Forall (fun ev => has (fflags ev) NOTE_DELETE = false) batch ->
  exists p',
    pass E C p = Ret tt p' /\
    trace p' =
      trace p ++ a_kevent [] 32 None ::
      concat (replicate (length (List.filter qualifies batch))
                (command_run (argv C))) /\
    invocations (trace p') =
      (invocations (trace p) + length (List.filter qualifies batch))%nat /\
    files p' = files p /\ n_open p' = n_open p /\ n_close p' = n_close p.
Proof.
  intros Hfifo Hret Hquiet Hlen Hall.
  rewrite (pass_after_wait batch p Hret Hlen).
  set (p0 := {| files := files p; errno := errno p;
                evList := batch ++ drop (length batch) (evList p);
                n_open := n_open p; n_close := n_close p;
                n_kevent := S (n_kevent p);
                trace := trace p ++ [a_kevent [] 32 None] |}).
  destruct (for_events_command batch [] (drop (length batch) (evList p)) p0
              Hfifo Hquiet eq_refl Hall)
    as (p' & Hrun & Htrace & Hfiles & Hopen & Hclose & _).
  exists p'. split; [exact Hrun|].
  assert (Htr : trace p' =
            trace p ++ [a_kevent [] 32 None] ++
            concat (replicate (length (List.filter qualifies batch))
                      (command_run (argv C)))).
  { rewrite Htrace. simpl. rewrite <- app_assoc. reflexivity. }
  split; [exact Htr|]. split; [|auto].
  rewrite Htr, !EntrFacts.invocations_app, invocations_command_runs.
  change (invocations [a_kevent [] 32 None]) with 0%nat. lia.
Qed.

(** X15.  The read that follows the command takes what was queued while
    the command ran, and the loop does not look at it: for a batch of one
    event with NOTE_WRITE or NOTE_EXTEND the command is run once, whatever
    that read returns, events or an error. *)
Theorem changes_during_the_command_are_dropped (ev : struct_kevent)
    (p : proc) :
  fd (fifo C) = 0 ->
  kevent_ret_of E (n_kevent p) = kevent_gets [ev] ->
  has (fflags ev) NOTE_DELETE = false -> qualifies ev = true ->
  exists p',
    pass E C p = Ret tt p' /\
    trace p' = trace p ++ a_kevent [] 32 None :: command_run (argv C) /\
    invocations (trace p') = (invocations (trace p) + 1)%nat /\
    files p' = files p /\ n_kevent p' = S (S (n_kevent p)).
Proof.
  intros Hfifo Hret Hdel Hq.
  rewrite (pass_after_wait [ev] p Hret ltac:(simpl; lia)).
  cbn [length for_events]. unfold dispatch, bind, event_at. simpl.
  rewrite Hdel. unfold qualifies in Hq. rewrite Hdel in Hq. simpl in Hq |- *.
  rewrite Hq. unfold deliver. rewrite Hfifo. simpl.
  unfold bind, run_script, sys_kevent. simpl.
  assert (Htr : forall tr : list action,
            invocations (tr ++ a_kevent [] 32 None :: command_run (argv C))
              = (invocations tr + 1)%nat).
  { intros tr. rewrite EntrFacts.invocations_app. reflexivity. }
  destruct (kevent_ret_of E (S (n_kevent p))) as [e|events]; simpl;
    (eexists; split; [reflexivity|]); simpl;
    rewrite <- !app_assoc; simpl; rewrite Htr; auto.
Qed.

(** *** Errors *)

(** X16.  When the [close] for an event with NOTE_DELETE fails, the process
    ends there with the [errno] of the [close] as its code: the file is not
    opened again and nothing is delivered for the event. *)
Theorem failed_close_ends_the_process (idx i : nat) (ev : struct_kevent)
    (f : watch_file_t) (p : proc) :
  evList p !! idx = Some ev -> has (fflags ev) NOTE_DELETE = true ->
  udata ev = Some i -> files p !! i = Some f ->
  rv (close_ret E (n_close p)) = -1 ->
  exists p',
    dispatch E C idx p =
      Exit (en (close_ret E (n_close p))) "unable to close file" p' /\
    trace p' = trace p ++ [a_close (fd f)] /\
    files p' = files p /\ n_open p' = n_open p /\ n_kevent p' = n_kevent p.
Proof.
  intros Hev Hdel Hu Hf Hclose.
  unfold dispatch, bind, event_at. rewrite Hev, Hdel, Hu.
  unfold load. rewrite Hf. unfold sys_close. cbv zeta. rewrite Hclose.
  simpl. unfold get_errno, err, set_errno, log. simpl. rewrite Hclose. simpl.
  eexists. split; [reflexivity|]. simpl. auto.
Qed.

End Loop.

Lemma pass_over_other_events_witness :
  let batch :=
    [EV_SET 5 EVFILT_VNODE 0 NOTE_ATTRIB 0 (Some 0%nat); Shim.stdin_event] in
  exists p',
    pass (Sample.kernel batch 5) Sample.fifo_mode (Sample.boot Sample.watched)
      = Ret tt p' /\
    trace p' = [a_kevent [] 32 None] /\ files p' = Sample.watched.
Proof.
  intros batch.
  destruct (pass_over_other_events (Sample.kernel batch 5) Sample.fifo_mode
              batch (Sample.boot Sample.watched))
    as (p' & Hrun & Htrace & Hfiles & _).
  - reflexivity.
  - simpl. lia.
  - repeat constructor.
  - exists p'. auto.
Defined.

Lemma fifo_pass_writes_a_line_per_change_witness :
  let batch :=
    [ Sample.written_to 1 6;
      EV_SET 5 EVFILT_VNODE 0 NOTE_ATTRIB 0 (Some 0%nat);
      EV_SET 7 EVFILT_VNODE 0 NOTE_EXTEND 0 (Some 2%nat) ] in
  exists p',
    pass (Sample.kernel batch 5) Sample.fifo_mode (Sample.boot Sample.watched)
      = Ret tt p' /\
    written 3 (trace p') = c_str ("b.txt" +:+ newline) +:+ c_str ("c.txt" +:+ newline) /\
    flushes (trace p') = 2%nat /\ invocations (trace p') = 0%nat.
Proof.
  intros batch.
  destruct (fifo_pass_writes_a_line_per_change (Sample.kernel batch 5)
              Sample.fifo_mode batch (Sample.boot Sample.watched))
    as (p' & Hrun & _ & Hw & Hf & Hi & _).
  - discriminate.
  - reflexivity.
  - simpl. lia.
  - repeat constructor; intros _; eexists _, _; split; reflexivity.
  - exists p'. auto.
Defined.

Lemma command_pass_runs_once_per_event_witness :
  let batch :=
    [ Sample.written_to 1 6;
      EV_SET 5 EVFILT_VNODE 0 NOTE_ATTRIB 0 (Some 0%nat);
      EV_SET 6 EVFILT_VNODE 0 NOTE_EXTEND 0 (Some 1%nat) ] in
  exists p',
    pass (Sample.kernel batch 5) Sample.command_mode
      (Sample.boot Sample.watched) = Ret tt p' /\
    invocations (trace p') = 2%nat.
Proof.
  intros batch.
  destruct (command_pass_runs_once_per_event (Sample.kernel batch 5)
              Sample.command_mode batch (Sample.boot Sample.watched))
    as (p' & Hrun & _ & Hi & _).
  - reflexivity.
  - reflexivity.
  - intros m. reflexivity.
  - simpl. lia.
  - repeat constructor.
  - exists p'. auto.
Defined.

Lemma changes_during_the_command_are_dropped_witness :
  let E := {| open_ret := fun _ => Sample.ok;
              close_ret := fun _ => Sample.ok;
              kevent_ret_of := fun k =>
                match k with
                | O => kevent_gets [Sample.written_to 0 5]
                | S _ => kevent_gets [Sample.written_to 1 6;
                                      Sample.written_to 2 7]
                end |} in
  exists p',
    pass E Sample.command_mode (Sample.boot Sample.watched) = Ret tt p' /\
    invocations (trace p') = 1%nat /\
    take 2 (evList p') = [Sample.written_to 1 6; Sample.written_to 2 7].
Proof.
  intros E.
  destruct (changes_during_the_command_are_dropped E Sample.command_mode
              (Sample.written_to 0 5) (Sample.boot Sample.watched))
    as (p' & Hrun & _ & Hinv & _).
  - reflexivity.
  - reflexivity.
  - reflexivity.
  - reflexivity.
  - exists p'. split; [exact Hrun|]. split; [exact Hinv|].
    assert (Hp : Ret tt p' =
              pass E Sample.command_mode (Sample.boot Sample.watched))
      by (symmetry; exact Hrun).
    vm_compute in Hp. injection Hp as ->. reflexivity.
Defined.

Lemma failed_close_ends_the_process_witness :
  let E := {| open_ret := fun _ => Sample.ok;
              close_ret := fun _ => {| rv := -1; en := 9 |};
              kevent_ret_of := fun _ => kevent_gets [] |} in
  let p := state_of (sys_kevent (Sample.kernel [Sample.deleted 1 6] 6) [] 32
                       None (Sample.boot Sample.watched)) in
  exists p',
    dispatch E Sample.command_mode 0 p = Exit 9 "unable to close file" p' /\
    trace p' = [a_kevent [] 32 None; a_close 6].
Proof.
  intros E p.
  destruct (failed_close_ends_the_process E Sample.command_mode 0 1
              (Sample.deleted 1 6) {| fn := "b.txt"; fd := 6 |} p)
    as (p' & Hrun & Htrace & _).
  - vm_compute; reflexivity.
  - reflexivity.
  - reflexivity.
  - vm_compute; reflexivity.
  - reflexivity.
  - exists p'. auto.
Defined.

End LoopFacts.

(** * More properties of the start of entr.c *)

Module MainFacts.
Import Event Entr Startup.

Section Start.
Variable E : env.

(** X17.  A registration that [kevent] refuses ends the process with code 1
    after the file has been opened, unless [errno] is 0 (the message
    "Success"): then [watch_file] returns as if the file were registered. *)
Theorem refused_registration_ends_the_process (i j : nat) (d e : Z)
    (f : watch_file_t) (p : proc) :
  (j < 20)%nat -> files p !! i = Some f ->
  (forall m, (m < j)%nat -> rv (open_ret E (n_open p + m)) = -1) ->
  rv (open_ret E (n_open p + j)) = d -> d <> -1 ->
  kevent_ret_of E (n_kevent p) = kevent_fails e ->
  exists p',
    watch_file E (Some i) p =
      (if e =? 0 then Ret tt p'
       else Exit 1 "failed to register VNODE event list" p') /\
    files p' !! i = Some {| fn := fn f; fd := d |} /\
    errno p' = e /\
    trace p' =
      trace p ++ failed_attempts j (fn f) ++
      [a_open (fn f); a_kevent [evSet_of d (Some i)] 0 None].
Proof.
  intros Hj Hf Hfail Hd Hne Hrefused.
  destruct (EntrFacts.open_loop_succeeds E i d j 20 p f Hj Hf Hfail Hd Hne)
    as (p1 & Hrun & Hi & Hopen & Hkev & Htrace & _).
  unfold watch_file. rewrite (EntrFacts.bind_Ret _ _ _ _ _ Hrun).
  rewrite (EntrFacts.bind_Ret _ _ _ _ _ (EntrFacts.load_Some i _ p1 Hi)). simpl.
  apply Z.eqb_neq in Hne. rewrite Hne.
  unfold bind at 1. unfold ret at 1.
  rewrite (EntrFacts.bind_Ret _ _ _ _ _ (EntrFacts.load_Some i _ p1 Hi)). simpl.
  unfold bind, sys_kevent. rewrite Hkev, Hrefused. simpl.
  unfold get_errno, not_Success. simpl.
  destruct (e =? 0); simpl; (eexists; split; [reflexivity|]); simpl;
    (split; [exact Hi|]); (split; [reflexivity|]);
    rewrite Htrace, <- !app_assoc; reflexivity.
Qed.

(** The first [j] files of the loop of [main] when each is opened at the
    first attempt and registered. *)
Lemma watch_files_opens_in_order :
  forall j k i p,
    (j <= k)%nat -> (i + j <= length (files p))%nat ->
    (forall m, (m < j)%nat -> rv (open_ret E (n_open p + m)) <> -1) ->
    (forall m, (m < j)%nat ->
               accepted (kevent_ret_of E (n_kevent p + m)) = true) ->
    exists p1,
      watch_files E k i p = watch_files E (k - j) (i + j) p1 /\
      (forall m f, (m < j)%nat -> files p !! (i + m)%nat = Some f ->
                   files p1 !! (i + m)%nat =
                     Some {| fn := fn f;
                             fd := rv (open_ret E (n_open p + m)) |}) /\
      (forall q, (q < i \/ i + j <= q)%nat -> files p1 !! q = files p !! q) /\
      registrations (trace p1) = (registrations (trace p) + j)%nat /\
      n_open p1 = (n_open p + j)%nat /\ n_kevent p1 = (n_kevent p + j)%nat /\
      n_close p1 = n_close p /\ evList p1 = evList p.
Proof.
  induction j as [|j IH]; intros k i p Hjk Hlen Hopen Hacc.
  - exists p. rewrite Nat.sub_0_r, !Nat.add_0_r.
    split; [reflexivity|]. split; [intros m f Hm; lia|]. auto 8.
  - destruct k as [|k]; [lia|].
    destruct (lookup_lt_is_Some_2 (files p) i ltac:(lia)) as (f0 & Hf0).
    pose proof (Hopen 0%nat ltac:(lia)) as Hopen0.
    pose proof (Hacc 0%nat ltac:(lia)) as Hacc0.
    rewrite Nat.add_0_r in Hopen0, Hacc0.
    destruct (EntrFacts.watch_file_registers E i 0
                (rv (open_ret E (n_open p))) f0 p ltac:(lia) Hf0)
      as (p0 & Hrun & Hi & Htrace & Hn_open & Hn_kev & Hfiles & HevList & Hclose);
      [ intros m Hm; lia | rewrite Nat.add_0_r; reflexivity | exact Hopen0
      | exact Hacc0 | ].
    rewrite Nat.add_0_r in Hn_open.
    assert (Hlen0 : (S i + j <= length (files p0))%nat).
    { destruct (lookup_lt_is_Some_2 (files p) (i + j)%nat ltac:(lia))
        as (g & Hg).
      destruct (Nat.eq_dec (i + j)%nat i) as [Heq|Hneq].
      - apply lookup_lt_Some in Hi. lia.
      - rewrite <- (Hfiles (i + j)%nat Hneq) in Hg.
        apply lookup_lt_Some in Hg. lia. }
    destruct (IH k (S i) p0 ltac:(lia) Hlen0)
      as (p1 & Hrun1 & Hset & Hkeep & Hreg & Hn_open1 & Hn_kev1 & Hclose1 & HevList1).
    { intros m Hm. rewrite Hn_open.
      replace (S (n_open p) + m)%nat with (n_open p + S m)%nat by lia.
      apply Hopen. lia. }
    { intros m Hm. rewrite Hn_kev.
      replace (S (n_kevent p) + m)%nat with (n_kevent p + S m)%nat by lia.
      apply Hacc. lia. }
    exists p1. split.
    { cbn [watch_files]. rewrite (EntrFacts.bind_Ret _ _ _ _ _ Hrun).
      rewrite Hrun1. simpl. rewrite <- Nat.add_succ_r. reflexivity. }
    split.
    { intros m f Hm Hf. destruct m as [|m].
      - rewrite Nat.add_0_r in Hf. rewrite !Nat.add_0_r.
        rewrite Hkeep by lia.
        rewrite Hi. rewrite Hf in Hf0. injection Hf0 as <-. reflexivity.
      - replace (i + S m)%nat with (S i + m)%nat in Hf |- * by lia.
        rewrite (Hset m f) by
          (try lia; rewrite Hfiles by lia; exact Hf).
        rewrite Hn_open. do 4 f_equal. lia. }
    split.
    { intros q Hq. rewrite Hkeep by lia. apply Hfiles. lia. }
    split.
    { rewrite Hreg, Htrace. simpl. rewrite EntrFacts.registrations_app.
      change (registrations
                [a_open (fn f0);
                 a_kevent [evSet_of (rv (open_ret E (n_open p))) (Some i)] 0
                   None]) with 1%nat. lia. }
    repeat split; try lia; congruence.
Qed.

(** X18.  When every file is opened at the first attempt and every
    registration is accepted, the loop of [main] over the files returns with
    one registration made for each file, and the record of the m-th file holds
    the descriptor that the m-th [open] returned. *)
Theorem every_file_is_registered (k : nat) (p : proc) :
  (k <= length (files p))%nat ->
  (forall m, (m < k)%nat -> rv (open_ret E (n_open p + m)) <> -1) ->
  (forall m, (m < k)%nat ->
             accepted (kevent_ret_of E (n_kevent p + m)) = true) ->
  exists p',
    watch_files E k 0 p = Ret tt p' /\
    (forall m f, (m < k)%nat -> files p !! m = Some f ->
                 files p' !! m =
                   Some {| fn := fn f;
                           fd := rv (open_ret E (n_open p + m)) |}) /\
    (forall q, (k <= q)%nat -> files p' !! q = files p !! q) /\
    registrations (trace p') = (registrations (trace p) + k)%nat /\
    n_open p' = (n_open p + k)%nat /\ n_close p' = n_close p.
Proof.
  intros Hlen Hopen Hacc.
  destruct (watch_files_opens_in_order k k 0 p (Nat.le_refl k) Hlen Hopen Hacc)
    as (p' & Hrun & Hset & Hkeep & Hreg & Hn_open & _ & Hclose & _).
  exists p'. rewrite Nat.sub_diag in Hrun.
  split; [exact Hrun|]. split; [exact Hset|].
  split; [intros q Hq; apply Hkeep; lia|]. auto.
Qed.

(** X19.  The loop of [main] stops at the first file that cannot be opened:
    when the files before the j-th are opened and registered and the 20
    attempts for the j-th fail, the process ends with the [errno] of the last
    attempt and a message that names that file; the files after it are never
    opened. *)
Theorem unopenable_file_stops_the_start (j k : nat) (f : watch_file_t)
    (p : proc) :
  (j < k)%nat -> (k <= length (files p))%nat -> files p !! j = Some f ->
  (forall m, (m < j)%nat -> rv (open_ret E (n_open p + m)) <> -1) ->
  (forall m, (m < j)%nat ->
             accepted (kevent_ret_of E (n_kevent p + m)) = true) ->
  (forall m, (m < 20)%nat -> rv (open_ret E (n_open p + j + m)) = -1) ->
  exists p',
    watch_files E k 0 p =
      Exit (en (open_ret E (n_open p + j + 19)))
        ("cannot open `" +:+ fn f +:+ "'") p' /\
    n_open p' = (n_open p + j + 20)%nat /\
    registrations (trace p') = (registrations (trace p) + j)%nat.
Proof.
  intros Hjk Hlen Hf Hopen Hacc Hfail.
  destruct (watch_files_opens_in_order j k 0 p ltac:(lia) ltac:(lia) Hopen Hacc)
    as (p1 & Hrun & _ & Hkeep & Hreg & Hn_open & _).
  assert (Hf1 : files p1 !! j = Some f) by (rewrite Hkeep by lia; exact Hf).
  destruct (EntrFacts.watch_file_gives_up E j f p1 Hf1)
    as (p' & Hexit & Htrace & Hn_open' & _).
  { intros m Hm. rewrite Hn_open. apply Hfail, Hm. }
  exists p'. rewrite Hrun.
  destruct (k - j)%nat as [|rest] eqn:Hrest; [lia|].
  cbn [watch_files]. unfold bind. simpl. rewrite Hexit, Hn_open.
  split; [reflexivity|]. split; [lia|].
  rewrite Htrace, EntrFacts.registrations_app,
    EntrFacts.registrations_failed_attempts. lia.
Qed.

(** X20.  [sigemptyset] returns 0, and the test of [main] joins its result
    to the result of [sigaction] with a bitwise and: whatever [sigaction]
    returns, [main] goes on as if the handler were set. *)
Theorem sigaction_failure_is_not_noticed (S : startup) (r : Z)
    (argv : list string) (passes : nat) :
  sigemptyset_rv S = 0 ->
  sigint_check (with_sigaction S r) = false /\
  main E (with_sigaction S r) argv passes = main E S argv passes.
Proof.
  intros Hzero.
  assert (Hcheck : forall S', sigemptyset_rv S' = 0 -> sigint_check S' = false).
  { intros S' H. unfold sigint_check. rewrite H, Z.land_0_l. reflexivity. }
  split; [apply Hcheck, Hzero|].
  unfold main. rewrite (Hcheck S Hzero), (Hcheck (with_sigaction S r) Hzero).
  reflexivity.
Qed.

(** From the names of the input to the records the loop starts with. *)
Lemma records_of_names (S : startup) (names : list (list ascii)) :
  stdin S = unlines names ->
  Forall (plain_name (PATH_MAX S)) names ->
  length (stack S) = PATH_MAX S ->
  (forall k, (PATH_MAX S <= length (heap S k))%nat) ->
  1 <= rlim_max S -> Z.of_nat (length names) <= rlim_max S ->
  records_of S =
    map (fun name => {| fn := String.string_of_list_ascii name;
                        fd := unset_fd S |}) names /\
  snd (process_input (PATH_MAX S) (heap S) (stdin S) (stack S) (rlim_max S))
    = length names.
Proof.
  intros Hin Hall Hstack Hheap Hone Hmax.
  destruct (StartupFacts.process_input_names (PATH_MAX S) (heap S) Hheap names
              (stack S) (rlim_max S) Hall Hstack Hone) as (Hnames & Hcount).
  rewrite take_ge in Hnames by lia.
  unfold records_of. rewrite Hin, Hcount. split.
  - rewrite <- Hnames at 2. rewrite List.map_map. reflexivity.
  - rewrite <- (List.length_map c_string), Hnames. reflexivity.
Qed.

(** X21.  [main] from the input to the loop: with an input of lines that
    carry plain names, no more of them than files may be open, every file
    opened at the first attempt and every registration accepted, [main]
    enters the loop with one record for each line, in the order of the lines,
    that holds the name of the line and the descriptor of its [open], and
    with one registration made for each. *)
Theorem main_watches_the_files_of_the_input (S : startup)
    (argv : list string) (passes : nat) (names : list (list ascii))
    (fifo : watch_file_t) (mode : Z) :
  (2 <= length argv)%nat -> sigint_check S = false ->
  set_fifo argv (mkfifo_rv S) (fifo_open_rv S) = fifo_ready fifo mode ->
  kqueue_rv S <> -1 ->
  stdin S = unlines names ->
  Forall (plain_name (PATH_MAX S)) names ->
  length (stack S) = PATH_MAX S ->
  (forall k, (PATH_MAX S <= length (heap S k))%nat) ->
  1 <= rlim_max S -> Z.of_nat (length names) <= rlim_max S ->
  (forall m, (m < length names)%nat -> rv (open_ret E m) <> -1) ->
  (forall m, (m < length names)%nat -> accepted (kevent_ret_of E m) = true) ->
  exists p,
    main E S argv passes =
      watch_loop E {| fifo := fifo; argv := argv |} passes false p /\
    length (files p) = length names /\
    (forall m name, names !! m = Some name ->
                    files p !! m =
                      Some {| fn := String.string_of_list_ascii name;
                              fd := rv (open_ret E m) |}) /\
    registrations (trace p) = length names /\
    n_open p = length names /\ n_close p = 0%nat.
Proof.
  intros Hargc Hsig Hfifo Hkq Hin Hall Hstack Hheap Hone Hmax Hopen Hacc.
  destruct (records_of_names S names Hin Hall Hstack Hheap Hone Hmax)
    as (Hrecords & Hcount).
  assert (Hfiles : files (boot S) =
            map (fun name => {| fn := String.string_of_list_ascii name;
                                fd := unset_fd S |}) names)
    by exact Hrecords.
  destruct (watch_files_opens_in_order (length names) (length names) 0 (boot S)
              (Nat.le_refl _))
    as (p & Hrun & Hset & Hkeep & Hreg & Hn_open & _ & Hclose & _);
    [ rewrite Hfiles, List.length_map; simpl; lia | exact Hopen | exact Hacc | ].
  rewrite Nat.sub_diag in Hrun. simpl in Hrun, Hset, Hreg, Hn_open, Hclose.
  exists p. split; [|split; [|split; [|auto]]].
  - unfold main.
    apply Nat.ltb_ge in Hargc. rewrite Hargc, Hsig, Hfifo.
    apply Z.eqb_neq in Hkq. rewrite Hkq, Hcount.
    unfold bind. rewrite Hrun. reflexivity.
  - apply Nat.le_antisymm.
    + destruct (Nat.le_gt_cases (length (files p)) (length names)) as [H|H];
        [exact H|].
      destruct (lookup_lt_is_Some_2 (files p) (length names) H) as (g & Hg).
      rewrite Hkeep in Hg by lia. apply lookup_lt_Some in Hg.
      rewrite Hfiles, List.length_map in Hg. lia.
    + destruct names as [|name0 names0] eqn:Hnames; [simpl; lia|].
      rewrite <- Hnames in *.
      assert (Hlast : (length names - 1 < length names)%nat)
        by (rewrite Hnames; simpl; lia).
      destruct (lookup_lt_is_Some_2 names _ Hlast) as (name & Hname).
      assert (Hf : files (boot S) !! (length names - 1)%nat =
                Some {| fn := String.string_of_list_ascii name;
                        fd := unset_fd S |}).
      { rewrite Hfiles. change (@map) with (@fmap list _).
        rewrite list_lookup_fmap, Hname. reflexivity. }
      pose proof (Hset _ _ Hlast Hf) as Hp. apply lookup_lt_Some in Hp. lia.
  - intros m name Hname.
    assert (Hm : (m < length names)%nat) by (eapply lookup_lt_Some, Hname).
    assert (Hf : files (boot S) !! m =
              Some {| fn := String.string_of_list_ascii name;
                      fd := unset_fd S |}).
    { rewrite Hfiles. change (@map) with (@fmap list _).
      rewrite list_lookup_fmap, Hname. reflexivity. }
    exact (Hset m _ Hm Hf).
Qed.

End Start.

Lemma refused_registration_ends_the_process_witness :
  let E := {| open_ret := fun _ => {| rv := 5; en := 0 |};
              close_ret := fun _ => Sample.ok;
              kevent_ret_of := fun _ => kevent_fails 9 |} in
  exists p',
    watch_file E (Some 0%nat) (Sample.boot Sample.watched) =
      Exit 1 "failed to register VNODE event list" p' /\
    files p' !! 0%nat = Some {| fn := "a.txt"; fd := 5 |} /\
    errno p' = 9.
Proof.
  intros E.
  destruct (refused_registration_ends_the_process E 0 0 5 9
              {| fn := "a.txt"; fd := 5 |} (Sample.boot Sample.watched))
    as (p' & Hrun & Hfile & Herrno & _).
  - lia.
  - reflexivity.
  - intros m Hm. lia.
  - reflexivity.
  - discriminate.
  - reflexivity.
  - exists p'. auto.
Defined.

Lemma every_file_is_registered_witness :
  exists p',
    watch_files sample_kernel 3 0 (Sample.boot Sample.watched) = Ret tt p' /\
    files p' !! 2%nat = Some {| fn := "c.txt"; fd := 7 |} /\
    registrations (trace p') = 3%nat.
Proof.
  destruct (every_file_is_registered sample_kernel 3
              (Sample.boot Sample.watched))
    as (p' & Hrun & Hset & _ & Hreg & _).
  - simpl. lia.
  - intros m Hm. simpl. lia.
  - intros m Hm. reflexivity.
  - exists p'. split; [exact Hrun|]. split; [|exact Hreg].
    exact (Hset 2%nat {| fn := "c.txt"; fd := 7 |} ltac:(lia) eq_refl).
Defined.

Lemma unopenable_file_stops_the_start_witness :
  let E := {| open_ret := fun k =>
                match k with
                | O => {| rv := 5; en := 0 |}
                | S _ => Sample.no_such_file
                end;
              close_ret := fun _ => Sample.ok;
              kevent_ret_of := fun _ => kevent_gets [] |} in
  exists p',
    watch_files E 3 0 (Sample.boot Sample.watched) =
      Exit Sample.ENOENT "cannot open `b.txt'" p' /\
    n_open p' = 21%nat /\ registrations (trace p') = 1%nat.
Proof.
  intros E.
  destruct (unopenable_file_stops_the_start E 1 3 {| fn := "b.txt"; fd := 6 |}
              (Sample.boot Sample.watched))
    as (p' & Hrun & Hn_open & Hreg).
  - lia.
  - simpl. lia.
  - reflexivity.
  - intros m Hm. assert (m = 0)%nat as -> by lia. discriminate.
  - intros m Hm. reflexivity.
  - intros m Hm. reflexivity.
  - exists p'. auto.
Defined.

Lemma sigaction_failure_is_not_noticed_witness :
  main sample_kernel (with_sigaction sample_start (-1)) ["entr"; "make"] 1 =
  main sample_kernel sample_start ["entr"; "make"] 1.
Proof.
  exact (proj2 (sigaction_failure_is_not_noticed sample_kernel sample_start
                  (-1) ["entr"; "make"] 1 eq_refl)).
Defined.

Lemma main_watches_the_files_of_the_input_witness :
  exists p,
    main sample_kernel sample_start ["entr"; "make"] 0 = Ret tt p /\
    files p !! 0%nat = Some {| fn := "a.txt"; fd := 5 |} /\
    files p !! 1%nat = Some {| fn := "b.txt"; fd := 6 |} /\
    length (files p) = 2%nat /\ registrations (trace p) = 2%nat.
Proof.
  destruct (main_watches_the_files_of_the_input sample_kernel sample_start
              ["entr"; "make"] 0
              (map String.list_ascii_of_string ["a.txt"; "b.txt"])
              {| fn := ""; fd := 0 |} 0)
    as (p & Hrun & Hlen & Hfiles & Hreg & _).
  - simpl. lia.
  - reflexivity.
  - reflexivity.
  - discriminate.
  - reflexivity.
  - repeat apply Forall_cons_2; [..|apply Forall_nil_2];
      (apply StartupFacts.plain_name_text;
       [reflexivity | reflexivity | simpl; lia]).
  - reflexivity.
  - intros k. simpl. lia.
  - simpl. lia.
  - simpl. lia.
  - intros m Hm. simpl. lia.
  - intros m Hm. reflexivity.
  - exists p. split; [exact Hrun|].
    split; [exact (Hfiles 0%nat _ eq_refl)|].
    split; [exact (Hfiles 1%nat _ eq_refl)|].
    split; [exact Hlen | exact Hreg].
Defined.

End MainFacts.
